(** * Identity resolution and deduplication engine of ocr_project

    A shallow embedding of the record-linkage core of the repository:
    - [client_card_ocr.py]: [normalize_name], [fuzzy_match],
      [collect_name_phone_iin], [extract_identifiers],
      [find_matching_client], [group_by_client], [hamming_distance],
      [text_similarity], [deduplicate_pages];
    - [verify_with_db.py]: [normalize_name], [normalize_phone],
      [fuzzy_match], [match_names], [build_db_client_index],
      [find_best_match] and the status tiers of [verify_clients];
    - [normalize_ocr.py]: [normalize_phone].

    Python strings are sequences of code points, Python floats are
    binary64 numbers (Rocq's primitive floats), Python values that the
    code inspects dynamically are an inductive type, and an operation that
    raises is a computation in an error monad. *)

From Stdlib Require Import ZArith NArith Floats Uint63 String Ascii DecimalNat.
From stdpp Require Import base list sorting gmap.

Local Open Scope nat_scope.
Set Warnings "-register-all,-inexact-float,-clear-no-such-hyp".

(** ** Python strings *)

Module Py.

(** A [str] is a sequence of Unicode code points. *)
Definition pystr := list N.

(** ASCII literals, for readable constants. *)
Definition lit (s : string) : pystr :=
  map N_of_ascii (list_ascii_of_string s).

(** The characters [str.split()] and [str.strip()] treat as whitespace
    ([str.isspace]). *)
Definition is_space (c : N) : bool :=
  ((9 <=? c) && (c <=? 13) || (28 <=? c) && (c <=? 32)
   || (c =? 133) || (c =? 160) || (c =? 5760)
   || (8192 <=? c) && (c <=? 8202) || (c =? 8232) || (c =? 8233)
   || (c =? 8239) || (c =? 8287) || (c =? 12288))%N.

(** [str.lower()], one code point at a time, on the Basic Latin, Latin-1
    Supplement and Cyrillic blocks (the alphabets of the project's data);
    other code points are left as they are. *)
Definition lower_cp (c : N) : N :=
  (if (65 <=? c) && (c <=? 90) then c + 32
   else if (192 <=? c) && (c <=? 222) && negb (c =? 215) then c + 32
   else if (1024 <=? c) && (c <=? 1039) then c + 80
   else if (1040 <=? c) && (c <=? 1071) then c + 32
   else if ((1120 <=? c) && (c <=? 1153) || (1162 <=? c) && (c <=? 1215)
            || (1232 <=? c) && (c <=? 1327)) && N.even c then c + 1
   else if c =? 1216 then 1231
   else if (1217 <=? c) && (c <=? 1230) && N.odd c then c + 1
   else c)%N.

Definition lower (s : pystr) : pystr := map lower_cp s.

(** [c.isdigit()] on the ASCII digits. *)
Definition isdigit (c : N) : bool := ((48 <=? c) && (c <=? 57))%N.

Fixpoint lstrip (s : pystr) : pystr :=
  match s with
  | c :: s' => if is_space c then lstrip s' else s
  | [] => []
  end.

Definition rstrip (s : pystr) : pystr := reverse (lstrip (reverse s)).

Definition strip (s : pystr) : pystr := rstrip (lstrip s).

Definition cons_word (w : pystr) (ws : list pystr) : list pystr :=
  match w with [] => ws | _ => w :: ws end.

(** [split_go s] is the pending first word of [s] and the words after it. *)
Fixpoint split_go (s : pystr) : pystr * list pystr :=
  match s with
  | [] => ([], [])
  | c :: s' =>
      let '(w, ws) := split_go s' in
      if is_space c then ([], cons_word w ws) else (c :: w, ws)
  end.

(** [s.split()]: the maximal runs of non-whitespace characters. *)
Definition split (s : pystr) : list pystr :=
  let '(w, ws) := split_go s in cons_word w ws.

(** [sep.join(ws)]. *)
Fixpoint join (sep : pystr) (ws : list pystr) : pystr :=
  match ws with
  | [] => []
  | [w] => w
  | w :: ws' => w ++ sep ++ join sep ws'
  end.

(** [s.replace(old, new)] for a one-character [old]. *)
Definition replace (old : N) (new : pystr) (s : pystr) : pystr :=
  flat_map (fun c => if (c =? old)%N then new else [c]) s.

Fixpoint startswith (p s : pystr) : bool :=
  match p, s with
  | [], _ => true
  | _ :: _, [] => false
  | x :: p', y :: s' => (x =? y)%N && startswith p' s'
  end.

(** [p in s] for strings: [p] occurs in [s] as a substring. *)
Fixpoint contains (p s : pystr) : bool :=
  startswith p s || match s with [] => false | _ :: s' => contains p s' end.

(** [s.split(sep, 1)[1]] for a one-character [sep] that occurs in [s]:
    what follows the first occurrence. *)
Fixpoint after_first (sep : N) (s : pystr) : pystr :=
  match s with
  | [] => []
  | c :: s' => if (c =? sep)%N then s' else after_first sep s'
  end.

(** [s[-n:]]: the last [n] characters for [n > 0] (all of [s] when it is
    shorter). *)
Definition last_n (n : nat) (s : pystr) : pystr := drop (length s - n) s.

Definition str_eqb (a b : pystr) : bool := bool_decide (a = b).

(** The order of [str] comparison: lexicographic on code points. *)
Fixpoint str_leb (a b : pystr) : bool :=
  match a, b with
  | [], _ => true
  | _ :: _, [] => false
  | x :: a', y :: b' =>
      if (x <? y)%N then true else if (y <? x)%N then false else str_leb a' b'
  end.

Definition str_le (a b : pystr) : Prop := str_leb a b = true.

(** [sorted(l, key=...)], a stable sort; [leb x y] compares the keys. *)
Fixpoint insert_sorted {A} (leb : A -> A -> bool) (x : A) (l : list A) : list A :=
  match l with
  | [] => [x]
  | y :: l' => if leb x y then x :: l else y :: insert_sorted leb x l'
  end.

Definition sorted {A} (leb : A -> A -> bool) (l : list A) : list A :=
  foldr (insert_sorted leb) [] l.

(** Decimal rendering of integers, as [str(n)] and the [d] format do. *)
Fixpoint uint_digits (d : Decimal.uint) : pystr :=
  match d with
  | Decimal.Nil => []
  | Decimal.D0 d' => 48%N :: uint_digits d'
  | Decimal.D1 d' => 49%N :: uint_digits d'
  | Decimal.D2 d' => 50%N :: uint_digits d'
  | Decimal.D3 d' => 51%N :: uint_digits d'
  | Decimal.D4 d' => 52%N :: uint_digits d'
  | Decimal.D5 d' => 53%N :: uint_digits d'
  | Decimal.D6 d' => 54%N :: uint_digits d'
  | Decimal.D7 d' => 55%N :: uint_digits d'
  | Decimal.D8 d' => 56%N :: uint_digits d'
  | Decimal.D9 d' => 57%N :: uint_digits d'
  end.

Definition str_of_nat (n : nat) : pystr := uint_digits (Nat.to_uint n).

Definition str_of_Z (z : Z) : pystr :=
  match z with
  | Zneg p => 45%N :: uint_digits (Pos.to_uint p)
  | _ => uint_digits (N.to_uint (Z.to_N z))
  end.

(** [f"{n:04d}"]: zero-padded to four digits. *)
Definition format_04d (n : nat) : pystr :=
  let ds := str_of_nat n in replicate (4 - length ds) 48%N ++ ds.

(** ** Python values *)

(** The values a JSON payload or a spreadsheet cell can hold. *)
Inductive pyval :=
| PNone
| PBool (b : bool)
| PInt (z : Z)
| PFloat (f : float)
| PStr (s : pystr)
| PList (l : list pyval)
| PDict (d : list (pystr * pyval)).

(** Truth value of an object ([bool(v)]); a NaN is true, both zeros are
    false. *)
Definition truthy (v : pyval) : bool :=
  match v with
  | PNone => false
  | PBool b => b
  | PInt z => negb (z =? 0)%Z
  | PFloat f => negb (PrimFloat.eqb f 0%float)
  | PStr s => negb (str_eqb s [])
  | PList l => match l with [] => false | _ => true end
  | PDict d => match d with [] => false | _ => true end
  end.

(** [a or b]. *)
Definition py_or (a b : pyval) : pyval := if truthy a then a else b.

Definition is_str (v : pyval) : bool :=
  match v with PStr _ => true | _ => false end.

Definition is_float (v : pyval) : bool :=
  match v with PFloat _ => true | _ => false end.

(** [d.get(k)] and [d.get(k, default)] on a dict kept in insertion order. *)
Fixpoint dict_get {V} (k : pystr) (d : list (pystr * V)) : option V :=
  match d with
  | [] => None
  | (k', v) :: d' => if str_eqb k' k then Some v else dict_get k d'
  end.

Definition dict_get_default (k : pystr) (dflt : pyval) (d : list (pystr * pyval)) : pyval :=
  default dflt (dict_get k d).

(** [d[k] = v]: an existing key keeps its position. *)
Fixpoint dict_set {V} (k : pystr) (v : V) (d : list (pystr * V)) : list (pystr * V) :=
  match d with
  | [] => [(k, v)]
  | (k', v') :: d' =>
      if str_eqb k' k then (k', v) :: d' else (k', v') :: dict_set k v d'
  end.

(** [d[k] = f(d[k])] for a key that is present. *)
Fixpoint dict_update {V} (k : pystr) (f : V -> V) (d : list (pystr * V)) : list (pystr * V) :=
  match d with
  | [] => []
  | (k', v') :: d' =>
      if str_eqb k' k then (k', f v') :: d' else (k', v') :: dict_update k f d'
  end.

(** [d.setdefault(k, v)]. *)
Definition dict_setdefault {V} (k : pystr) (v : V) (d : list (pystr * V)) : list (pystr * V) :=
  match dict_get k d with
  | Some _ => d
  | None => d ++ [(k, v)]
  end.

(** [str(v)]. The renderings of floats, lists and dicts are those of
    [repr], which is taken as a parameter. *)
Definition py_str (repr : pyval -> pystr) (v : pyval) : pystr :=
  match v with
  | PStr s => s
  | PNone => lit "None"
  | PBool true => lit "True"
  | PBool false => lit "False"
  | PInt z => str_of_Z z
  | _ => repr v
  end.

(** ** Exceptions *)

Inductive exn := AttributeError | TypeError | KeyError.

Inductive result (A : Type) :=
| Ok (a : A)
| Raise (e : exn).
Arguments Ok {A} a.
Arguments Raise {A} e.

#[export] Instance result_ret : MRet result := fun A a => Ok a.
#[export] Instance result_bind : MBind result := fun A B f m =>
  match m with
  | Ok a => f a
  | Raise e => Raise e
  end.

(** A method of [str] called on [v]: an [AttributeError] unless [v] is a
    string. *)
Definition as_str (v : pyval) : result pystr :=
  match v with
  | PStr s => Ok s
  | _ => Raise AttributeError
  end.

(** A [for] loop over [l] whose body updates a state and can raise. *)
Fixpoint for_each {S A} (body : S -> A -> result S) (s : S) (l : list A)
    : result S :=
  match l with
  | [] => Ok s
  | x :: l' => s' ← body s x; for_each body s' l'
  end.

(** [l.sort(key=key)]: a stable sort that compares the keys with [<]
    only ([lt]); an exception raised by a comparison leaves the sort.
    Which pairs the algorithm of [list.sort] compares is not modelled:
    the elements are inserted one by one, from the last to the first.
    For timestamps the outcome does not depend on it: a sort has to
    compare a tz-aware key with a tz-naive one when both are present, and
    no other comparison raises. *)
Fixpoint insert_by_key {A K} (lt : K -> K -> result bool) (key : A -> K)
    (x : A) (l : list A) : result (list A) :=
  match l with
  | [] => Ok [x]
  | y :: l' =>
      before ← lt (key y) (key x);
      if before : bool then l'' ← insert_by_key lt key x l'; Ok (y :: l'')
      else Ok (x :: l)
  end.

Definition list_sort {A K} (lt : K -> K -> result bool) (key : A -> K)
    (l : list A) : result (list A) :=
  foldr (fun x acc => acc ← acc; insert_by_key lt key x acc) (Ok []) l.

(** ** Floats *)

(** [float(n)] for a natural number below 2^63 (a length, a count). *)
Definition float_of_nat (n : nat) : float :=
  PrimFloat.of_uint63 (Uint63.of_Z (Z.of_nat n)).

(** [x >= y] and [x > y] on floats. *)
Definition fge (x y : float) : bool := PrimFloat.leb y x.
Definition fgt (x y : float) : bool := PrimFloat.ltb y x.

(** [max(x, y)] and [min(x, y)] return the first argument unless the second
    is strictly beyond it. *)
Definition py_max (x y : float) : float := if PrimFloat.ltb x y then y else x.
Definition py_min (x y : float) : float := if PrimFloat.ltb y x then y else x.

End Py.

(** ** [difflib.SequenceMatcher(None, a, b).ratio()]

    The standard library's Ratcliff-Obershelp matcher, with no junk
    predicate and with its automatic-junk heuristic: when [b] has 200
    characters or more, a character that makes up more than 1% of it is
    left out of the index [b2j] (it can still be matched when a block is
    extended). *)

Module difflib.
Import Py.

Section SequenceMatcher.
Context (a b : pystr).

Definition popular (c : N) : bool :=
  (200 <=? length b) && (length b / 100 + 1 <? length (filter (eq c) b)).

Definition elem_eqb (i j : nat) : bool :=
  match a !! i, b !! j with
  | Some x, Some y => (x =? y)%N
  | _, _ => false
  end.

(** One row of the table [j2len] of [find_longest_match], for the
    character [ai] at index [i] of [a]. [bs] is what is left of [b] from
    index [j] on, [prev] the previous row from index [j] on and [pjm1]
    its entry at [j - 1]; an absent entry is 0. *)
Fixpoint row (alo blo bhi : nat) (ai : N) (i j : nat) (bs : pystr)
    (pjm1 : nat) (prev : list nat) (best : nat * nat * nat)
    : list nat * (nat * nat * nat) :=
  match bs with
  | [] => ([], best)
  | bj :: bs' =>
      let pj := hd 0 prev in
      let k :=
        if (bj =? ai)%N && negb (popular ai) && (blo <=? j) && (j <? bhi)
        then S pjm1 else 0 in
      let best' :=
        if best.2 <? k then (S i - k, S j - k, k) else best in
      let '(r, best'') := row alo blo bhi ai i (S j) bs' pj (tl prev) best' in
      (k :: r, best'')
  end.

Fixpoint rows (alo blo bhi : nat) (i : nat) (suffix : pystr)
    (n : nat) (prev : list nat) (best : nat * nat * nat) : nat * nat * nat :=
  match n, suffix with
  | S n', ai :: suffix' =>
      let '(r, best') := row alo blo bhi ai i 0 b 0 prev best in
      rows alo blo bhi (S i) suffix' n' r best'
  | _, _ => best
  end.

(** The two loops that extend the block over equal characters. *)
Fixpoint extend_left (fuel alo blo : nat) (best : nat * nat * nat) : nat * nat * nat :=
  match fuel with
  | 0 => best
  | S fuel' =>
      let '(i, j, k) := best in
      if (alo <? i) && (blo <? j) && elem_eqb (i - 1) (j - 1)
      then extend_left fuel' alo blo (i - 1, j - 1, S k)
      else best
  end.

Fixpoint extend_right (fuel ahi bhi : nat) (best : nat * nat * nat) : nat * nat * nat :=
  match fuel with
  | 0 => best
  | S fuel' =>
      let '(i, j, k) := best in
      if (i + k <? ahi) && (j + k <? bhi) && elem_eqb (i + k) (j + k)
      then extend_right fuel' ahi bhi (i, j, S k)
      else best
  end.

Definition find_longest_match (alo ahi blo bhi : nat) : nat * nat * nat :=
  let best := rows alo blo bhi alo (drop alo a) (ahi - alo)
                (replicate (length b) 0) (alo, blo, 0) in
  let best := extend_left (length a) alo blo best in
  extend_right (length a) ahi bhi best.

(** The sum of the sizes of the blocks of [get_matching_blocks]. *)
Fixpoint matches (fuel alo ahi blo bhi : nat) : nat :=
  match fuel with
  | 0 => 0
  | S fuel' =>
      let '(i, j, k) := find_longest_match alo ahi blo bhi in
      if k =? 0 then 0
      else k
           + (if (alo <? i) && (blo <? j) then matches fuel' alo i blo j else 0)
           + (if (i + k <? ahi) && (j + k <? bhi)
              then matches fuel' (i + k) ahi (j + k) bhi else 0)
  end.

Definition ratio : float :=
  let m := matches (S (length a)) 0 (length a) 0 (length b) in
  let len := length a + length b in
  if len =? 0 then 1%float
  else PrimFloat.div (PrimFloat.mul 2%float (float_of_nat m)) (float_of_nat len).
End SequenceMatcher.

(** A block [(i, j, k)] lies in the window of [a] from [alo] up to [n]. *)
Definition block_in (alo n : nat) (best : nat * nat * nat) : Prop :=
  alo <= best.1.1 /\ best.1.1 + best.2 <= n.

End difflib.

(** ** verify_with_db.py: the registry matcher *)

Module verify_with_db.
Import Py.

(** [normalize_name]: lower case, an id in square brackets in front
    removed, whitespace collapsed, U+0451 folded to U+0435. The order of
    the words is kept. *)
Definition normalize_name (name : pyval) : pystr :=
  match name with
  | PStr s =>
      if negb (truthy name) then []
      else
        let name := lower (strip s) in
        let name :=
          if startswith (lit "[") name && contains (lit "]") name
          then strip (after_first 93 name) else name in
        let name := join (lit " ") (split name) in
        replace 1105 [1077%N] name
  | _ => []
  end.

Section with_repr.
Context (repr : pyval -> pystr).

Definition normalize_phone (phone : pyval) : pystr :=
  if negb (truthy phone) || is_float phone then []
  else
    let phone := strip (py_str repr phone) in
    let digits := List.filter isdigit phone in
    if (length digits =? 11) && startswith (lit "8") digits
    then lit "7" ++ drop 1 digits
    else if length digits =? 10 then lit "7" ++ digits
    else digits.
End with_repr.

Definition fuzzy_match (s1 s2 : pystr) : float :=
  if str_eqb s1 [] || str_eqb s2 [] then 0%float
  else difflib.ratio s1 s2.

(** [match_names]; [word_boundary_only] is the configuration toggle
    [SUBSTRING_WORD_BOUNDARY_ONLY], whose fallback value is [True]. *)
Definition match_names (word_boundary_only : bool) (ocr_name db_name : pyval) : float :=
  let n1 := normalize_name ocr_name in
  let n2 := normalize_name db_name in
  if str_eqb n1 [] || str_eqb n2 [] then 0%float
  else if str_eqb n1 n2 then 1%float
  else
    let contained :=
      if word_boundary_only then
        let words1 : gset pystr := list_to_set (split n1) in
        let words2 : gset pystr := list_to_set (split n2) in
        bool_decide (words1 ⊆ words2) || bool_decide (words2 ⊆ words1)
      else contains n1 n2 || contains n2 n1 in
    if contained then 0.95%float
    else
      let same_surname :=
        match split n1, split n2 with
        | p1 :: _, p2 :: _ => str_eqb p1 p2 && (3 <=? length p1)
        | _, _ => false
        end in
      if same_surname then
        let fuzzy_score := fuzzy_match n1 n2 in
        py_max (fuzzy_score + 0.02)%float fuzzy_score
      else fuzzy_match n1 n2.

(** A [pd.Timestamp]: nanoseconds since the epoch, and whether it
    carries a time zone. *)
Record Timestamp := {
  ts_value : Z;
  ts_aware : bool
}.

(** [pd.Timestamp.min]; it has no time zone. *)
Definition Timestamp_min : Timestamp :=
  {| ts_value := (-9223372036854775807)%Z; ts_aware := false |}.

(** [a < b] on timestamps: pandas refuses to order a tz-aware and a
    tz-naive timestamp. *)
Definition Timestamp_lt (a b : Timestamp) : result bool :=
  if Bool.eqb (ts_aware a) (ts_aware b) then Ok (ts_value a <? ts_value b)%Z
  else Raise TypeError.

(** A row of the registry table; a missing date ([NaT]) or doctor
    ([NaN]) is [None]. *)
Record db_row := {
  row_name : pyval;
  row_name_norm : pystr;
  row_phone_norm : pystr;
  row_date : option Timestamp;
  row_doctor : option pystr;
  row_service : pyval
}.

(** A row as [load_db] leaves it. The dates are parsed with [utc=True]
    and [errors='coerce']: a date that parses ([date] is its value in
    nanoseconds) is tz-aware, another one is [NaT]. *)
Definition load_db_row (repr : pyval -> pystr) (name phone : pyval)
    (date : option Z) (doctor : option pystr) (service : pyval) : db_row :=
  {| row_name := name;
     row_name_norm := normalize_name name;
     row_phone_norm := normalize_phone repr phone;
     row_date := (fun ns => {| ts_value := ns; ts_aware := true |}) <$> date;
     row_doctor := doctor;
     row_service := service |}.

Record visit := {
  v_date : option Timestamp;
  v_doctor : option pystr;
  v_service : pyval
}.

(** An entry of the index. [total_visits] and [db_id] are set by the
    second loop of [build_db_client_index]; until then they hold the
    values a reader of the absent keys would default to. *)
Record db_client := {
  name_orig : pyval;
  phone : pystr;
  visits : list visit;
  doctors : gset pystr;
  total_visits : nat;
  db_id : pystr
}.

(** The sort key of a visit:
    [v['date'] if pd.notna(v['date']) else pd.Timestamp.min]. *)
Definition visit_key (v : visit) : Timestamp := default Timestamp_min (v_date v).

Definition add_row (index : list (pystr * db_client)) (row : db_row)
    : list (pystr * db_client) :=
  let name := row_name_norm row in
  if str_eqb name [] then index
  else
    let index :=
      match dict_get name index with
      | Some _ => index
      | None =>
          index ++ [(name, {| name_orig := row_name row;
                              phone := row_phone_norm row;
                              visits := [];
                              doctors := ∅;
                              total_visits := 0;
                              db_id := [] |})]
      end in
    dict_update name
      (fun e =>
         {| name_orig := name_orig e;
            phone := phone e;
            visits := visits e ++ [{| v_date := row_date row;
                                      v_doctor := row_doctor row;
                                      v_service := row_service row |}];
            doctors := match row_doctor row with
                       | Some d => {[ d ]} ∪ doctors e
                       | None => doctors e
                       end;
            total_visits := total_visits e;
            db_id := db_id e |})
      index.

(** The body of the second loop: the visits of [index[name]] are sorted
    in place, then counted, and the entry gets its id. *)
Definition assign_id (index : list (pystr * db_client)) (numbered : nat * pystr)
    : result (list (pystr * db_client)) :=
  let '(db_num, name) := numbered in
  match dict_get name index with
  | None => Raise KeyError
  | Some e =>
      sorted_visits ← list_sort Timestamp_lt visit_key (visits e);
      Ok (dict_update name
            (fun e =>
               {| name_orig := name_orig e;
                  phone := phone e;
                  visits := sorted_visits;
                  doctors := doctors e;
                  total_visits := length sorted_visits;
                  db_id := lit "DB-" ++ format_04d db_num |})
            index)
  end.

(** [enumerate(l, 1)]. *)
Definition enumerate1 {A} (l : list A) : list (nat * A) :=
  zip (seq 1 (length l)) l.

Definition build_db_client_index (rows : list db_row)
    : result (list (pystr * db_client)) :=
  let index := foldl add_row [] rows in
  let sorted_names := sorted str_leb (map fst index) in
  for_each assign_id index (enumerate1 sorted_names).

(** The second loop of [build_db_client_index], seen from one name: the
    id the name ends with, from the id [o] its entry has (if any) and the
    numbered names. *)
Definition final_id (name : pystr) (numbered : list (nat * pystr))
    (o : option pystr) : option pystr :=
  foldl (fun o nk => if str_eqb nk.2 name
                     then (fun _ => lit "DB-" ++ format_04d nk.1) <$> o else o)
    o numbered.

(** The visit record [add_row] appends for a row. *)
Definition row_visit (row : db_row) : visit :=
  {| v_date := row_date row; v_doctor := row_doctor row;
     v_service := row_service row |}.

(** The rows of a normalized name, in the order of the table. *)
Definition rows_of (name : pystr) (rows : list db_row) : list db_row :=
  List.filter (fun row => str_eqb (row_name_norm row) name) rows.

(** Whether the keys of [l] are all tz-aware or all tz-naive. *)
Definition same_awareness {A} (key : A -> Timestamp) (l : list A) : bool :=
  match l with
  | [] => true
  | x :: l' =>
      forallb (fun y => Bool.eqb (ts_aware (key y)) (ts_aware (key x))) l'
  end.

(** Whether the sort keys of the visits of every client can be ordered:
    no client has a visit with a tz-aware date next to one with no date or
    a tz-naive date. *)
Definition orderable (rows : list db_row) : bool :=
  forallb (fun row =>
             str_eqb (row_name_norm row) []
             || same_awareness visit_key
                  (map row_visit (rows_of (row_name_norm row) rows)))
    rows.

(** The order of the sort keys when they can be ordered. *)
Definition visit_leb (v w : visit) : bool :=
  (ts_value (visit_key v) <=? ts_value (visit_key w))%Z.

(** What the second loop of [build_db_client_index] makes of an entry
    numbered [db_num] whose visits can be ordered. *)
Definition numbered_entry (db_num : nat) (e : db_client) : db_client :=
  {| name_orig := name_orig e;
     phone := phone e;
     visits := sorted visit_leb (visits e);
     doctors := doctors e;
     total_visits := length (visits e);
     db_id := lit "DB-" ++ format_04d db_num |}.

Definition number_all (index : list (pystr * db_client))
    (numbered : list (nat * pystr)) : list (pystr * db_client) :=
  foldl (fun index nk => dict_update nk.2 (numbered_entry nk.1) index)
    index numbered.

(** The id a name has in the index of [rows]: the call raises, or the
    name has no entry, or its entry has this id. *)
Definition db_id_of (name : pystr) (rows : list db_row) : result (option pystr) :=
  index ← build_db_client_index rows;
  Ok (db_id <$> dict_get name index).

(** [int(s)] for a string of ASCII digits. *)
Definition digits_value (s : pystr) : nat :=
  foldl (fun acc c => 10 * acc + (N.to_nat c - 48)) 0 s.

Record best_match := {
  bm_db_id : pystr;
  db_name : pyval;
  db_name_norm : pystr;
  db_phone : pystr;
  score : float;
  bm_total_visits : nat;
  bm_doctors : gset pystr;
  bm_visits : list visit;
  phone_match : bool
}.

Section find_best_match.
Context (repr : pyval -> pystr) (word_boundary_only : bool).
Context (ocr_name ocr_phone : pyval) (threshold : float).

(** The state of the loop: [best_match], [best_score], [phone_matched]. *)
Definition best_step (st : option best_match * float * bool)
    (entry : pystr * db_client) : option best_match * float * bool :=
  let '(best, best_score, phone_matched) := st in
  let '(db_name, data) := entry in
  let ocr_ph := normalize_phone repr ocr_phone in
  let name_score := match_names word_boundary_only ocr_name (name_orig data) in
  let current_phone_match :=
    negb (str_eqb ocr_ph []) && negb (str_eqb (phone data) [])
    && str_eqb ocr_ph (phone data) in
  let phone_bonus := if current_phone_match then 0.20%float else 0%float in
  let total_score := py_min 1%float (name_score + phone_bonus)%float in
  if fgt total_score best_score && fge total_score threshold then
    (Some {| bm_db_id := db_id data;
             db_name := name_orig data;
             db_name_norm := db_name;
             db_phone := phone data;
             score := total_score;
             bm_total_visits := total_visits data;
             bm_doctors := doctors data;
             bm_visits := visits data;
             phone_match := current_phone_match |},
     total_score, current_phone_match)
  else st.

Definition find_best_match (db_index : list (pystr * db_client)) : option best_match :=
  (foldl best_step (None, 0%float, false) db_index).1.1.
End find_best_match.

(** The three tiers of [verify_clients]. *)
Inductive status := STATUS_DB_FOUND | STATUS_DB_MAYBE | STATUS_DB_NOT_FOUND.

(** The status of a row, from its raw name and the result of
    [find_best_match]; [min_fio_words] is the configuration constant
    [MIN_FIO_WORDS_FOR_CONFIDENT_MATCH], whose fallback value is 2. *)
Definition status_bd (min_fio_words : nat) (ocr_name : pystr)
    (m : option best_match) : status :=
  match m with
  | None => STATUS_DB_NOT_FOUND
  | Some m =>
      let fio_words := length (split (strip ocr_name)) in
      if phone_match m || (min_fio_words <=? fio_words) && fge (score m) 0.85%float
      then STATUS_DB_FOUND
      else STATUS_DB_MAYBE
  end.

(** One row of [verify_clients]: rows without a name are skipped. *)
Definition verify_row (repr : pyval -> pystr) (word_boundary_only : bool)
    (min_fio_words : nat) (ocr_name ocr_phone : pystr)
    (db_index : list (pystr * db_client)) (threshold : float) : option status :=
  if str_eqb ocr_name [] || str_eqb ocr_name (lit "nan") then None
  else
    let m := find_best_match repr word_boundary_only (PStr ocr_name)
               (PStr ocr_phone) threshold db_index in
    Some (status_bd min_fio_words ocr_name m).

End verify_with_db.

(** ** normalize_ocr.py *)

Module normalize_ocr.
Import Py.

Definition normalize_phone (repr : pyval -> pystr) (phone : pyval) : pystr :=
  if negb (truthy phone) || is_float phone then []
  else
    let phone := strip (py_str repr phone) in
    let digits := List.filter isdigit phone in
    if (length digits =? 11) && startswith (lit "8") digits
    then lit "7" ++ drop 1 digits
    else if length digits =? 10 then lit "7" ++ digits
    else digits.

End normalize_ocr.

(** ** client_card_ocr.py: grouping pages by client, removing duplicates *)

Module client_card_ocr.
Import Py.

(** The optional [rapidfuzz.fuzz] module: [_lazy_import_rapidfuzz()] is
    [None] when the package is not installed. *)
Record RapidFuzz := {
  token_sort_ratio : pystr -> pystr -> float;
  rf_ratio : pystr -> pystr -> float
}.

(** The attributes of [config] the core reads, with [getattr] fallbacks
    0.75, 16 and 0.90. *)
Record Config := {
  FUZZY_NAME_THRESHOLD : float;
  IMAGE_HASH_SIZE : nat;
  OCR_DUPLICATE_THRESHOLD : float
}.

Definition default_config : Config :=
  {| FUZZY_NAME_THRESHOLD := 0.75; IMAGE_HASH_SIZE := 16;
     OCR_DUPLICATE_THRESHOLD := 0.90 |}.

(** A page record, as [process_all] builds it; [ocr_text] is empty for a
    record that has none. *)
Record page := {
  filename : pystr;
  filepath : pystr;
  page_type : pystr;
  page_data : pyval;
  ocr_text : pystr
}.

Record identifiers := {
  ids_fio : pyval;
  ids_phone : pyval;
  ids_iin : pyval
}.

Record client := {
  c_name : pyval;
  c_phone : pyval;
  c_iin : pyval;
  c_pages : list page
}.

(** Keys and constants written in Cyrillic in the source. *)
Definition k_patient : pystr := [1087; 1072; 1094; 1080; 1077; 1085; 1090]%N.
Definition k_fio_ru : pystr := [1092; 1080; 1086]%N.
Definition k_phone_ru : pystr := [1090; 1077; 1083; 1077; 1092; 1086; 1085]%N.
Definition k_iin_ru : pystr := [1080; 1080; 1085]%N.
Definition NO_FIO : pystr := [40; 1073; 1077; 1079; 32; 1060; 1048; 1054; 41]%N.
Definition NO_CLIENT : pystr :=
  [9888; 32; 1053; 1077; 32; 1091; 1076; 1072; 1083; 1086; 1089; 1100; 32;
   1086; 1087; 1088; 1077; 1076; 1077; 1083; 1080; 1090; 1100; 32; 1082;
   1083; 1080; 1077; 1085; 1090; 1072]%N.

(** [normalize_name]: lower case, words sorted. *)
Definition normalize_name (name : pyval) : result pystr :=
  if negb (truthy name) then Ok []
  else
    s ← as_str name;
    let words := split (lower (strip s)) in
    Ok (join (lit " ") (sorted str_leb words)).

(** [cur] after following [path] through nested dicts. *)
Fixpoint follow (cur : pyval) (path : list pystr) : option pyval :=
  match path with
  | [] => Some cur
  | key :: path' =>
      match cur with
      | PDict d =>
          match dict_get key d with
          | Some v => follow v path'
          | None => None
          end
      | _ => None
      end
  end.

(** [_pick_first]: the first value that is not [None], not the empty
    string (a NaN never equals the fresh NaN it is compared with) and not
    a dict or a list; [PNone] when there is none. *)
Fixpoint _pick_first (data : list (pystr * pyval)) (paths : list (list pystr)) : pyval :=
  match paths with
  | [] => PNone
  | path :: paths' =>
      match follow (PDict data) path with
      | Some PNone => _pick_first data paths'
      | Some (PStr []) => _pick_first data paths'
      | Some (PDict _) => _pick_first data paths'
      | Some (PList _) => _pick_first data paths'
      | Some cur => cur
      | None => _pick_first data paths'
      end
  end.

Definition aliases_fio : list (list pystr) :=
  [ [k_patient; k_fio_ru]; [lit "patient_info"; lit "name"]; [lit "fio"];
    [lit "patient_name"]; [lit "document"; lit "patient_name"];
    [lit "client_name"]; [lit "patient"] ].

Definition aliases_phone : list (list pystr) :=
  [ [lit "phone"]; [lit "contact"]; [lit "contacts"];
    [lit "patient_info"; lit "phone"]; [k_patient; k_phone_ru] ].

Definition aliases_iin : list (list pystr) :=
  [ [k_patient; k_iin_ru]; [lit "iin"]; [lit "patient_info"; lit "iin"] ].

Section grouping.
Context (repr : pyval -> pystr) (rf_fuzz : option RapidFuzz).

Definition _normalize_simple (value : pyval) : pystr :=
  match value with
  | PNone => []
  | _ => join (lit " ") (split (replace 1105 [1077%N] (py_str repr value)))
  end.

(** [collect_name_phone_iin]: [setdefault] leaves a key that is already
    in the payload as it is. *)
Definition collect_name_phone_iin (data : pyval) : list (pystr * pyval) :=
  match data with
  | PDict d =>
      let fio := _pick_first d aliases_fio in
      let phone := _pick_first d aliases_phone in
      let iin := _pick_first d aliases_iin in
      let enriched := d in
      let enriched :=
        if truthy fio
        then dict_setdefault (lit "fio") (PStr (_normalize_simple fio)) enriched
        else enriched in
      let enriched :=
        if truthy phone
        then dict_setdefault (lit "phone") (PStr (_normalize_simple phone)) enriched
        else enriched in
      if truthy iin
      then dict_setdefault (lit "iin") (PStr (_normalize_simple iin)) enriched
      else enriched
  | _ => [(lit "fio", PStr []); (lit "phone", PStr []); (lit "iin", PStr [])]
  end.

Definition extract_identifiers (result : page) : identifiers :=
  let data := collect_name_phone_iin (page_data result) in
  {| ids_fio := dict_get_default (lit "fio") (PStr []) data;
     ids_phone := dict_get_default (lit "phone") (PStr []) data;
     ids_iin := dict_get_default (lit "iin") (PStr []) data |}.

Definition fuzzy_match (name1 name2 : pyval) : result float :=
  if negb (truthy name1) || negb (truthy name2) then Ok 0%float
  else
    n1 ← normalize_name name1;
    n2 ← normalize_name name2;
    if str_eqb n1 n2 then Ok 1%float
    else
      match rf_fuzz with
      | Some rf => Ok (token_sort_ratio rf n1 n2 / 100)%float
      | None => Ok (difflib.ratio n1 n2)
      end.

(** [phone.replace(" ", "").replace("-", "").replace("+", "")]. *)
Definition clean_phone (s : pystr) : pystr :=
  replace 43 [] (replace 45 [] (replace 32 [] s)).

Section find_matching_client.
Context (new_fio : pyval) (new_phone new_iin : pystr) (threshold : float).

(** The three checks of the loop body, in order. *)
Definition check_iin (client_data : client) : result bool :=
  if negb (str_eqb new_iin []) && truthy (c_iin client_data) then
    client_iin ← as_str (c_iin client_data);
    Ok (str_eqb new_iin (replace 32 [] client_iin))
  else Ok false.

Definition check_phone (client_data : client) : result bool :=
  if negb (str_eqb new_phone []) && (7 <=? length new_phone)
     && truthy (c_phone client_data) then
    client_phone ← as_str (c_phone client_data);
    let client_phone := clean_phone client_phone in
    Ok (negb (str_eqb client_phone [])
        && str_eqb (last_n 7 new_phone) (last_n 7 client_phone))
  else Ok false.

Definition check_fio (client_data : client) : result bool :=
  if truthy new_fio && truthy (c_name client_data) then
    similarity ← fuzzy_match new_fio (c_name client_data);
    Ok (fge similarity threshold)
  else Ok false.

Fixpoint find_loop (clients : list (pystr * client)) : result (option pystr) :=
  match clients with
  | [] => Ok None
  | (client_key, client_data) :: rest =>
      by_iin ← check_iin client_data;
      if by_iin : bool then Ok (Some client_key)
      else
        by_phone ← check_phone client_data;
        if by_phone : bool then Ok (Some client_key)
        else
          by_fio ← check_fio client_data;
          if by_fio : bool then Ok (Some client_key)
          else find_loop rest
  end.
End find_matching_client.

Definition find_matching_client (ids : identifiers)
    (clients : list (pystr * client)) (threshold : float) : result (option pystr) :=
  let new_fio := ids_fio ids in
  phone ← as_str (ids_phone ids);
  let new_phone := clean_phone phone in
  iin ← as_str (ids_iin ids);
  let new_iin := replace 32 [] iin in
  find_loop new_fio new_phone new_iin threshold clients.

Definition priority_order : list pystr :=
  [lit "medical_card_front"; lit "complex_package"; lit "procedure_sheet";
   lit "products_list"; lit "medical_card_inner"; lit "botox_record"].

(** [priority_order.index(t)], or 99 for a type that is not listed. *)
Fixpoint index_of (t : pystr) (l : list pystr) (i : nat) : nat :=
  match l with
  | [] => 99
  | x :: l' => if str_eqb x t then i else index_of t l' (S i)
  end.

Definition priority (r : page) : nat := index_of (page_type r) priority_order 0.

Definition client_key_of (n : nat) : pystr := lit "client_" ++ str_of_nat n.

Definition no_ids (ids : identifiers) : bool :=
  negb (truthy (ids_fio ids)) && negb (truthy (ids_phone ids))
  && negb (truthy (ids_iin ids)).

(** [clients[match_key]["pages"].append(result)]. *)
Definition append_page (result : page) (c : client) : client :=
  {| c_name := c_name c; c_phone := c_phone c; c_iin := c_iin c;
     c_pages := c_pages c ++ [result] |}.

(** The two assignments that fill in a phone and an id the cluster
    lacks. *)
Definition backfill (ids : identifiers) (c : client) : client :=
  {| c_name := c_name c;
     c_phone := if truthy (ids_phone ids) && negb (truthy (c_phone c))
                then ids_phone ids else c_phone c;
     c_iin := if truthy (ids_iin ids) && negb (truthy (c_iin c))
              then ids_iin ids else c_iin c;
     c_pages := c_pages c |}.

(** The key a truthy [match_key] holds. *)
Definition truthy_key (match_key : option pystr) : option pystr :=
  match match_key with
  | Some k => if str_eqb k [] then None else Some k
  | None => None
  end.

Section with_threshold.
Context (threshold : float).

(** The body of the main loop, on the state [(clients, unmatched)]. *)
Definition group_step (st : list (pystr * client) * list page) (result : page)
    : Py.result (list (pystr * client) * list page) :=
  let '(clients, unmatched) := st in
  if str_eqb (page_type result) (lit "error") then Ok (clients, unmatched ++ [result])
  else
    let ids := extract_identifiers result in
    if no_ids ids then Ok (clients, unmatched ++ [result])
    else
      match_key ← find_matching_client ids clients threshold;
      match truthy_key match_key with
      | Some match_key =>
          Ok (dict_update match_key
                (fun c => backfill ids (append_page result c)) clients,
              unmatched)
      | None =>
          let name := if truthy (ids_fio ids) then ids_fio ids else PStr NO_FIO in
          let client_key := client_key_of (length clients + 1) in
          Ok (dict_set client_key
                {| c_name := name; c_phone := ids_phone ids;
                   c_iin := ids_iin ids; c_pages := [result] |} clients,
              unmatched)
      end.

Fixpoint group_loop (st : list (pystr * client) * list page) (results : list page)
    : Py.result (list (pystr * client) * list page) :=
  match results with
  | [] => Ok st
  | result :: rest => st' ← group_step st result; group_loop st' rest
  end.

(** The body of the second pass over the unmatched pages, on the state
    [(clients, remaining)]. *)
Definition rematch_step (st : list (pystr * client) * list page) (p : page)
    : Py.result (list (pystr * client) * list page) :=
  let '(clients, remaining) := st in
  let ids := extract_identifiers p in
  match_key ←
    (if negb (no_ids ids) then find_matching_client ids clients threshold
     else Ok None);
  match truthy_key match_key with
  | Some match_key => Ok (dict_update match_key (append_page p) clients, remaining)
  | None => Ok (clients, remaining ++ [p])
  end.

Fixpoint rematch_loop (st : list (pystr * client) * list page) (unmatched : list page)
    : Py.result (list (pystr * client) * list page) :=
  match unmatched with
  | [] => Ok st
  | p :: rest => st' ← rematch_step st p; rematch_loop st' rest
  end.

Definition extend_pages (remaining : list page) (c : client) : client :=
  {| c_name := c_name c; c_phone := c_phone c; c_iin := c_iin c;
     c_pages := c_pages c ++ remaining |}.

(** What is done with the unmatched pages after the main loop. *)
Definition place_unmatched (clients : list (pystr * client)) (unmatched : list page)
    : Py.result (list (pystr * client)) :=
  match unmatched with
  | [] => Ok clients
  | first :: _ =>
      let existing_keys :=
        List.filter (fun k => negb (str_eqb k (lit "_unmatched"))) (map fst clients) in
      match existing_keys with
      | [] =>
          let any_ids := extract_identifiers first in
          let name :=
            py_or (ids_fio any_ids)
              (if truthy (py_or (ids_phone any_ids) (ids_iin any_ids))
               then PStr NO_FIO else PStr NO_CLIENT) in
          Ok (dict_set (lit "client_1")
                {| c_name := name; c_phone := ids_phone any_ids;
                   c_iin := ids_iin any_ids; c_pages := unmatched |} clients)
      | primary_key :: _ =>
          '(clients, remaining) ← rematch_loop (clients, []) unmatched;
          match remaining with
          | [] => Ok clients
          | _ => Ok (dict_update primary_key (extend_pages remaining) clients)
          end
      end
  end.
End with_threshold.

Definition group_by_client (config : Config) (results : list page)
    : Py.result (list (pystr * client)) :=
  let threshold := FUZZY_NAME_THRESHOLD config in
  let sorted_results := sorted (fun r s => priority r <=? priority s) results in
  '(clients, unmatched) ← group_loop threshold ([], []) sorted_results;
  place_unmatched threshold clients unmatched.
End grouping.

(** *** Duplicate pages *)

Section dedup.
(** [image_pixels path hash_size] is the list of gray levels of the image
    at [path] reduced to [hash_size] by [hash_size] (what
    [Image.open(..).convert('L').resize(..).getdata()] gives), or [None]
    when opening or resizing raises; [path_exists] is [os.path.exists];
    [json_dumps] is [json.dumps(.., sort_keys=True, ensure_ascii=False)]. *)
Context (rf_fuzz : option RapidFuzz) (config : Config).
Context (path_exists : pystr -> bool).
Context (image_pixels : pystr -> nat -> option (list nat)).
Context (json_dumps : pyval -> pystr).

(** [compute_image_hash]: one bit per pixel, set when the pixel is
    brighter than the mean; empty when anything raises (an empty image
    divides by zero). *)
Definition compute_image_hash (image_path : pystr) (hash_size : nat) : pystr :=
  match image_pixels image_path hash_size with
  | None => []
  | Some [] => []
  | Some pixels =>
      let avg := (float_of_nat (foldr plus 0%nat pixels) / float_of_nat (length pixels))%float in
      map (fun p => if fgt (float_of_nat p) avg then 49%N else 48%N) pixels
  end.

Definition hamming_distance (hash1 hash2 : pystr) : float :=
  if str_eqb hash1 [] || str_eqb hash2 [] || negb (length hash1 =? length hash2)
  then 1%float
  else
    let diff := length (List.filter (fun cc => negb (cc.1 =? cc.2)%N) (zip hash1 hash2)) in
    (float_of_nat diff / float_of_nat (length hash1))%float.

Definition text_similarity (text1 text2 : pystr) : float :=
  if str_eqb text1 [] || str_eqb text2 [] then 0%float
  else
    let t1 := join (lit " ") (split (lower text1)) in
    let t2 := join (lit " ") (split (lower text2)) in
    if str_eqb t1 t2 then 1%float
    else
      match rf_fuzz with
      | Some rf => (rf_ratio rf t1 t2 / 100)%float
      | None => difflib.ratio t1 t2
      end.

Definition page_hash (p : page) : pystr :=
  if negb (str_eqb (filepath p) []) && path_exists (filepath p)
  then compute_image_hash (filepath p) (IMAGE_HASH_SIZE config)
  else [].

(** The three checks on a pair of pages and their hashes. *)
Definition is_duplicate (page_i page_j : page) (hash_i hash_j : pystr) : bool :=
  let by_hash :=
    negb (str_eqb hash_i []) && negb (str_eqb hash_j [])
    && PrimFloat.ltb (hamming_distance hash_i hash_j) 0.10%float in
  if by_hash then true
  else
    let by_text :=
      negb (str_eqb (ocr_text page_i) []) && negb (str_eqb (ocr_text page_j) [])
      && fge (text_similarity (ocr_text page_i) (ocr_text page_j))
             (OCR_DUPLICATE_THRESHOLD config) in
    if by_text then true
    else
      str_eqb (page_type page_i) (page_type page_j)
      && negb (str_eqb (page_type page_i) (lit "unknown"))
      && str_eqb (json_dumps (page_data page_i)) (json_dumps (page_data page_j)).

(** Which of the pair goes: the one with the shorter text, the later one
    when the texts are as long. *)
Definition remove_idx (pages : list page) (i j : nat) : nat :=
  let len_i := length (default [] (ocr_text <$> pages !! i)) in
  let len_j := length (default [] (ocr_text <$> pages !! j)) in
  if len_j <=? len_i then j else i.

(** A comparison the loop makes: the pair and the removal set at that
    moment. The list of comparisons is a ghost output of the loops; the
    removal set is what the code computes. *)
Definition comparison : Type := nat * nat * gset nat.

Section loops.
Context (pages : list page) (page_hashes : list pystr).

Definition duplicate_at (i j : nat) : bool :=
  match pages !! i, pages !! j, page_hashes !! i, page_hashes !! j with
  | Some page_i, Some page_j, Some hash_i, Some hash_j =>
      is_duplicate page_i page_j hash_i hash_j
  | _, _, _, _ => false
  end.

Fixpoint inner_loop (i : nat) (js : list nat)
    (st : gset nat * list comparison) : gset nat * list comparison :=
  match js with
  | [] => st
  | j :: js' =>
      let '(to_remove, log) := st in
      if bool_decide (j ∈ to_remove) then inner_loop i js' st
      else
        let log := log ++ [(i, j, to_remove)] in
        if duplicate_at i j
        then inner_loop i js' ({[ remove_idx pages i j ]} ∪ to_remove, log)
        else inner_loop i js' (to_remove, log)
  end.

Fixpoint outer_loop (idxs : list nat)
    (st : gset nat * list comparison) : gset nat * list comparison :=
  match idxs with
  | [] => st
  | i :: idxs' =>
      if bool_decide (i ∈ st.1) then outer_loop idxs' st
      else
        let n := length pages in
        outer_loop idxs' (inner_loop i (seq (i + 1) (n - (i + 1))) st)
  end.
End loops.

Definition find_duplicates (pages : list page) : gset nat * list comparison :=
  outer_loop pages (map page_hash pages) (seq 0 (length pages)) (∅, []).

(** [[p for idx, p in enumerate(pages) if idx not in to_remove]]. *)
Definition keep_pages (to_remove : gset nat) (pages : list page) : list page :=
  (List.filter (fun ip => negb (bool_decide (ip.1 ∈ to_remove)))
     (zip (seq 0 (length pages)) pages)).*2.

Definition dedup_client (entry : pystr * client) : pystr * client :=
  let '(key, client_data) := entry in
  if str_eqb key (lit "_unmatched") then entry
  else
    let pages := c_pages client_data in
    if length pages <=? 1 then entry
    else
      let to_remove := (find_duplicates pages).1 in
      (key, {| c_name := c_name client_data; c_phone := c_phone client_data;
               c_iin := c_iin client_data;
               c_pages := keep_pages to_remove pages |}).

Definition deduplicate_pages (grouped_clients : list (pystr * client))
    : list (pystr * client) :=
  map dedup_client grouped_clients.
End dedup.

(** *** The exact-identifier conditions of the grouping rule

    The two conditions under which the specification promises a merge
    whatever the names are, on a page's identifiers and a cluster. *)

(** Both national ids are present and equal once spaces are removed. *)
Definition same_national_id (ids : identifiers) (client_data : client) : bool :=
  match ids_iin ids, c_iin client_data with
  | PStr new_iin, PStr client_iin =>
      negb (str_eqb (replace 32 [] new_iin) []) && negb (str_eqb client_iin [])
      && str_eqb (replace 32 [] new_iin) (replace 32 [] client_iin)
  | _, _ => false
  end.

(** Both phones have seven characters or more once spaces, dashes and
    plus signs are removed, and the last seven are the same. *)
Definition same_phone_tail (ids : identifiers) (client_data : client) : bool :=
  match ids_phone ids, c_phone client_data with
  | PStr new_phone, PStr client_phone =>
      (7 <=? length (clean_phone new_phone))
      && (7 <=? length (clean_phone client_phone))
      && str_eqb (last_n 7 (clean_phone new_phone))
           (last_n 7 (clean_phone client_phone))
  | _, _ => false
  end.

(** *** Notions used to state the grouping invariant *)

(** The pages of all the clusters, cluster after cluster. *)
Definition all_pages (clients : list (pystr * client)) : list page :=
  concat (map (fun kc => c_pages kc.2) clients).

(** The three identifiers are strings (possibly empty). *)
Definition str_ids (ids : identifiers) : bool :=
  is_str (ids_fio ids) && is_str (ids_phone ids) && is_str (ids_iin ids).

Definition str_client (c : client) : bool :=
  is_str (c_name c) && is_str (c_phone c) && is_str (c_iin c).

(** The keys are [client_1], [client_2], ... in the order of creation. *)
Definition keys_wf (clients : list (pystr * client)) : Prop :=
  map fst clients = map client_key_of (seq 1 (length clients)).

(** A page that cannot make [find_matching_client] raise: its identifiers
    are all empty, or they are strings. *)
Definition ids_ok (ids : identifiers) : bool := no_ids ids || str_ids ids.

End client_card_ocr.

(** ** Concrete inputs used by the examples below *)

Module scenarios.
Import Py client_card_ocr.

(** A front page whose payload names the client and has [null] for the
    national id: [{"fio": "Ivanov Petr", "iin": null}]. *)
Definition null_iin_page : page :=
  {| filename := lit "card_001.jpg"; filepath := lit "cards/card_001.jpg";
     page_type := lit "medical_card_front";
     page_data := PDict [(lit "fio", PStr (lit "Ivanov Petr")); (lit "iin", PNone)];
     ocr_text := lit "Ivanov Petr" |}.

(** The same page with the national id left out of the payload. *)
Definition absent_iin_page : page :=
  {| filename := lit "card_001.jpg"; filepath := lit "cards/card_001.jpg";
     page_type := lit "medical_card_front";
     page_data := PDict [(lit "fio", PStr (lit "Ivanov Petr"))];
     ocr_text := lit "Ivanov Petr" |}.

(** Three pages of unknown type without image files: the text of the
    second extends the text of the first, the text of the third differs
    from it in its last two characters. *)
Definition text_page (name text : string) : page :=
  {| filename := lit name; filepath := []; page_type := lit "unknown";
     page_data := PDict []; ocr_text := lit text |}.

Definition three_pages : list page :=
  [ text_page "a.jpg" "abcdefghijklmnopqrstuvwxyz0123";
    text_page "b.jpg" "abcdefghijklmnopqrstuvwxyz0123456789";
    text_page "c.jpg" "abcdefghijklmnopqrstuvwxyz01##" ].

(** Two clusters and the identifiers of a page that shares its name with
    the first and its national id with the second. *)
Definition first_cluster : client :=
  {| c_name := PStr (lit "Ivanova Anna"); c_phone := PStr [];
     c_iin := PStr []; c_pages := [] |}.

Definition second_cluster : client :=
  {| c_name := PStr (lit "Petrova Maria"); c_phone := PStr [];
     c_iin := PStr (lit "900101300123"); c_pages := [] |}.

Definition two_clusters : list (pystr * client) :=
  [ (lit "client_1", first_cluster); (lit "client_2", second_cluster) ].

Definition shared_id_page : identifiers :=
  {| ids_fio := PStr (lit "Ivanova Anna"); ids_phone := PStr [];
     ids_iin := PStr (lit "900101 300123") |}.

(** Registry rows of two clients, three visits. *)
Definition registry_rows : list verify_with_db.db_row :=
  [ verify_with_db.load_db_row (fun _ => []) (PStr (lit "Petrova Maria"))
      (PStr (lit "87772222222")) (Some 1706745600000000000%Z)
      (Some (lit "Oksana A.")) (PStr (lit "Mezo"));
    verify_with_db.load_db_row (fun _ => []) (PStr (lit "Ivanova Anna"))
      (PStr (lit "87771111111")) (Some 1710460800000000000%Z)
      (Some (lit "Rada K.")) (PStr (lit "Peeling"));
    verify_with_db.load_db_row (fun _ => []) (PStr (lit "Ivanova  Anna"))
      (PStr (lit "87771111111")) (Some 1704844800000000000%Z)
      (Some (lit "Oksana A.")) (PStr (lit "Cleaning")) ].

(** Two visits of one client as [load_db] leaves them, the second one
    with a date that is missing or does not parse; and the same two rows
    with that date in place. *)
Definition undated_rows : list verify_with_db.db_row :=
  [ verify_with_db.load_db_row (fun _ => []) (PStr (lit "Ivanova Anna"))
      (PStr (lit "87771111111")) (Some 1710460800000000000%Z)
      (Some (lit "Rada K.")) (PStr (lit "Peeling"));
    verify_with_db.load_db_row (fun _ => []) (PStr (lit "Ivanova Anna"))
      (PStr (lit "87771111111")) None
      (Some (lit "Oksana A.")) (PStr (lit "Cleaning")) ].

Definition dated_rows : list verify_with_db.db_row :=
  [ verify_with_db.load_db_row (fun _ => []) (PStr (lit "Ivanova Anna"))
      (PStr (lit "87771111111")) (Some 1710460800000000000%Z)
      (Some (lit "Rada K.")) (PStr (lit "Peeling"));
    verify_with_db.load_db_row (fun _ => []) (PStr (lit "Ivanova Anna"))
      (PStr (lit "87771111111")) (Some 1704844800000000000%Z)
      (Some (lit "Oksana A.")) (PStr (lit "Cleaning")) ].

(** No image file can be read. *)
Definition no_files : pystr -> bool := fun _ => false.
Definition no_pixels : pystr -> nat -> option (list nat) := fun _ _ => None.

(** A stand-in for [repr] and [json.dumps] where their value plays no
    part. *)
Definition no_repr : pyval -> pystr := fun _ => [].

End scenarios.

(** * Properties *)

(** ** Strings *)

Section strings.
Import Py.

Lemma str_eqb_eq (a b : pystr) : str_eqb a b = true <-> a = b.
Proof. unfold str_eqb. apply bool_decide_eq_true. Qed.

Lemma str_eqb_neq (a b : pystr) : str_eqb a b = false <-> a ≠ b.
Proof. unfold str_eqb. apply bool_decide_eq_false. Qed.

Lemma str_eqb_refl (a : pystr) : str_eqb a a = true.
Proof. by apply str_eqb_eq. Qed.

Lemma str_eqb_sym (a b : pystr) : str_eqb a b = str_eqb b a.
Proof. unfold str_eqb. apply bool_decide_ext. split; congruence. Qed.

Lemma str_leb_total (a b : pystr) : str_leb a b = true ∨ str_leb b a = true.
Proof.
  revert b. induction a as [|x a IH]; intros [|y b]; simpl; auto.
  destruct (N.ltb_spec x y), (N.ltb_spec y x); auto; lia.
Qed.

Lemma str_leb_trans (a b c : pystr) :
  str_leb a b = true → str_leb b c = true → str_leb a c = true.
Proof.
  revert b c. induction a as [|x a IH]; intros [|y b] [|z c]; simpl; auto; try done.
  destruct (N.ltb_spec x y), (N.ltb_spec y x), (N.ltb_spec y z),
    (N.ltb_spec z y), (N.ltb_spec x z), (N.ltb_spec z x);
    try done; try lia; eauto.
Qed.

Lemma str_leb_antisym (a b : pystr) :
  str_leb a b = true → str_leb b a = true → a = b.
Proof.
  revert b. induction a as [|x a IH]; intros [|y b]; simpl; try done.
  destruct (N.ltb_spec x y), (N.ltb_spec y x); try done; try lia.
  intros. f_equal; [lia | auto].
Qed.

Lemma str_le_trans : Transitive str_le.
Proof. intros a b c. apply str_leb_trans. Qed.

Lemma str_le_antisym : AntiSymm (=) str_le.
Proof. intros a b. apply str_leb_antisym. Qed.

(** *** The stable insertion sort *)

Lemma insert_sorted_Permutation {A} (leb : A → A → bool) x l :
  insert_sorted leb x l ≡ₚ x :: l.
Proof.
  induction l as [|y l IH]; simpl; [done |].
  destruct (leb x y); [done |]. rewrite IH. apply Permutation_swap.
Qed.

Lemma sorted_Permutation {A} (leb : A → A → bool) l : sorted leb l ≡ₚ l.
Proof.
  induction l as [|x l IH]; simpl; [done |].
  unfold sorted in *. simpl. by rewrite insert_sorted_Permutation, IH.
Qed.

Lemma sorted_length {A} (leb : A → A → bool) l : length (sorted leb l) = length l.
Proof. apply Permutation_length, sorted_Permutation. Qed.

Lemma insert_sorted_Sorted {A} (leb : A → A → bool) x l :
  (∀ a b, leb a b = true ∨ leb b a = true) →
  Sorted (λ a b, leb a b = true) l →
  Sorted (λ a b, leb a b = true) (insert_sorted leb x l).
Proof.
  intros Htot. induction 1 as [|y l Hs IH Hhd]; simpl.
  { repeat constructor. }
  destruct (leb x y) eqn:Hxy.
  - constructor; [by constructor | by constructor].
  - constructor; [done |].
    destruct l as [|z l]; simpl.
    + constructor. destruct (Htot x y); congruence.
    + inversion Hhd; subst. destruct (leb x z); constructor; [| done].
      destruct (Htot x y); congruence.
Qed.

Lemma sorted_Sorted {A} (leb : A → A → bool) l :
  (∀ a b, leb a b = true ∨ leb b a = true) →
  Sorted (λ a b, leb a b = true) (sorted leb l).
Proof.
  intros Htot. induction l as [|x l IH]; [constructor |].
  by apply insert_sorted_Sorted.
Qed.

(** Sorting strings forgets the order they came in. *)
Lemma sorted_str_perm (l1 l2 : list pystr) :
  l1 ≡ₚ l2 → sorted str_leb l1 = sorted str_leb l2.
Proof.
  intros Hp. apply (@Sorted_unique _ str_le str_le_trans str_le_antisym).
  - apply (sorted_Sorted str_leb), str_leb_total.
  - apply (sorted_Sorted str_leb), str_leb_total.
  - by rewrite !sorted_Permutation.
Qed.

(** *** [split], [strip] and [lower] *)

Lemma split_go_spaces (t : pystr) :
  Forall (λ c, is_space c = true) t → split_go t = ([], []).
Proof. induction 1 as [|c t Hc _ IH]; simpl; [done |]. by rewrite IH, Hc. Qed.

Lemma split_go_app_spaces (s t : pystr) :
  Forall (λ c, is_space c = true) t → split_go (s ++ t) = split_go s.
Proof.
  intros Ht. induction s as [|c s IH]; simpl.
  - by apply split_go_spaces.
  - by rewrite IH.
Qed.

Lemma lstrip_spec (s : pystr) :
  ∃ t, s = t ++ lstrip s ∧ Forall (λ c, is_space c = true) t.
Proof.
  induction s as [|c s (t & Hs & Ht)]; simpl.
  - by exists [].
  - destruct (is_space c) eqn:Hc.
    + exists (c :: t). split; [simpl; congruence | by constructor].
    + by exists [].
Qed.

Lemma split_lstrip (s : pystr) : split (lstrip s) = split s.
Proof.
  induction s as [|c s IH]; simpl; [done |].
  destruct (is_space c) eqn:Hc; [| done].
  rewrite IH. unfold split. simpl. rewrite Hc.
  by destruct (split_go s) as [[|??] ?].
Qed.

Lemma split_rstrip (s : pystr) : split (rstrip s) = split s.
Proof.
  unfold rstrip. destruct (lstrip_spec (reverse s)) as (t & Hs & Ht).
  assert (s = reverse (lstrip (reverse s)) ++ reverse t) as Hs'.
  { rewrite <- reverse_app, <- Hs. by rewrite reverse_involutive. }
  rewrite Hs' at 2. unfold split. rewrite split_go_app_spaces; [done |].
  rewrite reverse_Permutation. done.
Qed.

Lemma split_strip (s : pystr) : split (strip s) = split s.
Proof. unfold strip. by rewrite split_rstrip, split_lstrip. Qed.

Lemma is_space_false (c : N) :
  (33 ≤ c < 5760)%N → c ≠ 133%N → c ≠ 160%N → is_space c = false.
Proof.
  intros ???. unfold is_space.
  repeat match goal with
         | |- context [N.leb ?x ?y] =>
             first [ rewrite (proj2 (N.leb_le x y)) by lia
                   | rewrite (proj2 (N.leb_gt x y)) by lia ]
         | |- context [N.eqb ?x ?y] => rewrite (proj2 (N.eqb_neq x y)) by lia
         end.
  reflexivity.
Qed.

(** [lower] neither makes nor removes whitespace. *)
Lemma is_space_lower_cp (c : N) : is_space (lower_cp c) = is_space c.
Proof.
  unfold lower_cp.
  repeat match goal with
         | |- context [if ?b then _ else _] =>
             let E := fresh "E" in
             destruct b eqn:E;
             [ repeat first [ rewrite andb_true_iff in E
                            | rewrite orb_true_iff in E
                            | rewrite N.leb_le in E
                            | rewrite N.eqb_eq in E
                            | rewrite negb_true_iff in E
                            | rewrite N.eqb_neq in E ];
               rewrite !is_space_false; [reflexivity | lia ..]
             | clear E ]
         end.
  reflexivity.
Qed.

Lemma split_go_lower (s : pystr) :
  split_go (lower s) = (lower (split_go s).1, map lower (split_go s).2).
Proof.
  induction s as [|c s IH]; simpl; [done |].
  unfold lower in *. rewrite IH, is_space_lower_cp.
  destruct (split_go s) as [w ws]; simpl.
  destruct (is_space c); [| done]. by destruct w.
Qed.

Lemma split_lower (s : pystr) : split (lower s) = map lower (split s).
Proof.
  unfold split. rewrite split_go_lower.
  destruct (split_go s) as [w ws]; simpl. by destruct w.
Qed.
End strings.

(** ** The normalizers *)

Section normalizers.
Import Py.

Lemma grouper_normalize_name_eq (s : pystr) :
  client_card_ocr.normalize_name (PStr s)
  = Ok (join (lit " ") (sorted str_leb (map lower (split s)))).
Proof.
  unfold client_card_ocr.normalize_name. simpl.
  destruct (str_eqb s []) eqn:Hs; simpl.
  - apply str_eqb_eq in Hs. by subst.
  - by rewrite split_lower, split_strip.
Qed.

(** C7 (as amended): the [normalize_name] of the grouper
    ([client_card_ocr.py]) does not depend on the order of the words:
    two names whose whitespace-separated words are a permutation of each
    other have the same normal form, as "Ivanov Petr" and "Petr Ivanov"
    do. *)
Theorem grouper_normalize_name_word_order :
  (∀ s1 s2 : pystr,
      split s1 ≡ₚ split s2 →
      client_card_ocr.normalize_name (PStr s1)
      = client_card_ocr.normalize_name (PStr s2))
  ∧ client_card_ocr.normalize_name (PStr (lit "Ivanov Petr"))
    = client_card_ocr.normalize_name (PStr (lit "Petr Ivanov")).
Proof.
  split; [| reflexivity].
  intros s1 s2 Hp. rewrite !grouper_normalize_name_eq.
  do 2 f_equal. apply sorted_str_perm. by apply Permutation_map.
Qed.

Lemma grouper_normalize_name_word_order_witness :
  client_card_ocr.normalize_name (PStr (lit "Anna  Ivanova"))
  = client_card_ocr.normalize_name (PStr (lit " Ivanova Anna")).
Proof.
  apply (proj1 grouper_normalize_name_word_order).
  vm_compute. apply Permutation_swap.
Defined.

(** C7 (as stated) fails for the [normalize_name] of the registry
    matcher ([verify_with_db.py]), which keeps the words in the order
    they were written. *)
Lemma matcher_normalize_name_keeps_word_order :
  verify_with_db.normalize_name (PStr (lit "Ivanov Petr"))
  ≠ verify_with_db.normalize_name (PStr (lit "Petr Ivanov")).
Proof. vm_compute. discriminate. Qed.

(** C10: [normalize_phone], in [verify_with_db.py] and in
    [normalize_ocr.py], returns the empty string for every falsy input
    and for every float, whatever the float renders to. *)
Theorem normalize_phone_falsy_or_float (repr : pyval → pystr) (phone : pyval) :
  truthy phone = false ∨ is_float phone = true →
  verify_with_db.normalize_phone repr phone = []
  ∧ normalize_ocr.normalize_phone repr phone = [].
Proof.
  unfold verify_with_db.normalize_phone, normalize_ocr.normalize_phone.
  intros [-> | ->]; simpl; [done |].
  by rewrite orb_true_r.
Qed.

Lemma normalize_phone_falsy_or_float_witness :
  verify_with_db.normalize_phone (λ _, lit "77001234567.0") (PFloat 77001234567%float) = []
  ∧ normalize_ocr.normalize_phone (λ _, lit "77001234567.0") (PFloat 77001234567%float) = [].
Proof. apply normalize_phone_falsy_or_float. right. reflexivity. Defined.
End normalizers.

(** ** The registry matcher *)

Section matcher.
Import Py verify_with_db.

(** C5: with the fallback minimum of two words, a row with a best match
    is "found in DB" exactly when the phone matched or the raw name has
    at least two words and the score is at least 0.85, and "maybe"
    otherwise; a row without a match is "not found". A one-word name
    with score 0.90 is "maybe" without a phone match and "found" with
    one. *)
Theorem status_tiers :
  (∀ (ocr_name : pystr) (m : best_match),
      status_bd 2 ocr_name (Some m) = STATUS_DB_FOUND
      ↔ phone_match m = true
        ∨ (2 ≤ length (split ocr_name) ∧ fge (score m) 0.85%float = true))
  ∧ (∀ (ocr_name : pystr) (m : best_match),
        status_bd 2 ocr_name (Some m) = STATUS_DB_MAYBE
        ↔ ¬ (phone_match m = true
             ∨ (2 ≤ length (split ocr_name) ∧ fge (score m) 0.85%float = true)))
  ∧ (∀ ocr_name : pystr, status_bd 2 ocr_name None = STATUS_DB_NOT_FOUND)
  ∧ (∀ repr wb (ocr_name ocr_phone : pystr) db_index threshold,
        ocr_name ≠ [] → ocr_name ≠ lit "nan" →
        verify_row repr wb 2 ocr_name ocr_phone db_index threshold
        = Some (status_bd 2 ocr_name
                  (find_best_match repr wb (PStr ocr_name) (PStr ocr_phone)
                     threshold db_index)))
  ∧ (∀ (ocr_name : pystr) (m : best_match),
        length (split ocr_name) = 1 → score m = 0.90%float →
        status_bd 2 ocr_name (Some m)
        = if phone_match m then STATUS_DB_FOUND else STATUS_DB_MAYBE).
Proof.
  assert (∀ (ocr_name : pystr) (m : best_match),
             status_bd 2 ocr_name (Some m)
             = if phone_match m
                  || (2 <=? length (split ocr_name)) && fge (score m) 0.85%float
               then STATUS_DB_FOUND else STATUS_DB_MAYBE) as Hst.
  { intros. unfold status_bd. by rewrite split_strip. }
  assert (∀ (ocr_name : pystr) (m : best_match),
             phone_match m
             || (2 <=? length (split ocr_name)) && fge (score m) 0.85%float = true
             ↔ phone_match m = true
               ∨ (2 ≤ length (split ocr_name) ∧ fge (score m) 0.85%float = true))
    as Hcond.
  { intros. by rewrite orb_true_iff, andb_true_iff, Nat.leb_le. }
  split; [| split; [| split; [| split]]].
  - intros ocr_name m. rewrite Hst, <- Hcond.
    by destruct (_ || _).
  - intros ocr_name m. rewrite Hst, <- Hcond.
    destruct (_ || _); split; done.
  - done.
  - intros repr wb ocr_name ocr_phone db_index threshold Hn Hnan.
    unfold verify_row.
    apply str_eqb_neq in Hn, Hnan. by rewrite Hn, Hnan.
  - intros ocr_name m Hw Hs. rewrite Hst, Hw. simpl.
    by rewrite orb_false_r.
Qed.

Lemma status_tiers_witness :
  let m b :=
    {| bm_db_id := lit "DB-0001"; db_name := PStr (lit "Ivanova Anna");
       db_name_norm := lit "ivanova anna"; db_phone := lit "77771111111";
       score := 0.90%float; bm_total_visits := 3; bm_doctors := ∅;
       bm_visits := []; phone_match := b |} in
  status_bd 2 (lit "Ivanova") (Some (m false)) = STATUS_DB_MAYBE
  ∧ status_bd 2 (lit "Ivanova") (Some (m true)) = STATUS_DB_FOUND.
Proof.
  intros m. destruct status_tiers as (_ & _ & _ & _ & H).
  split; [apply (H (lit "Ivanova") (m false)) | apply (H (lit "Ivanova") (m true))];
    reflexivity.
Defined.

Lemma match_names_unfold (a b : pyval) :
  normalize_name a ≠ [] → normalize_name b ≠ [] →
  normalize_name a ≠ normalize_name b →
  match_names true a b
  = let n1 := normalize_name a in
    let n2 := normalize_name b in
    if bool_decide ((list_to_set (split n1) : gset pystr) ⊆ list_to_set (split n2))
       || bool_decide ((list_to_set (split n2) : gset pystr) ⊆ list_to_set (split n1))
    then 0.95%float
    else if match split n1, split n2 with
            | p1 :: _, p2 :: _ => str_eqb p1 p2 && (3 <=? length p1)
            | _, _ => false
            end
         then py_max (fuzzy_match n1 n2 + 0.02)%float (fuzzy_match n1 n2)
         else fuzzy_match n1 n2.
Proof.
  intros H1%str_eqb_neq H2%str_eqb_neq H12%str_eqb_neq.
  unfold match_names. by rewrite H1, H2, H12.
Qed.

(** C4: with the whole-word toggle on, two different non-empty
    normalized names of which one's set of words is included in the
    other's score exactly 0.95; two different one-word names never do so
    through this rule, also when one word is a substring of the other,
    and score the fuzzy ratio. So "Ivan" against "Ivanova" stays below
    0.85 while "Ivanov" against "Ivanov Ivan" reaches 0.95. *)
Theorem match_names_word_boundary :
  (∀ a b : pyval,
      normalize_name a ≠ [] → normalize_name b ≠ [] →
      normalize_name a ≠ normalize_name b →
      (list_to_set (split (normalize_name a)) : gset pystr)
        ⊆ list_to_set (split (normalize_name b))
      ∨ (list_to_set (split (normalize_name b)) : gset pystr)
        ⊆ list_to_set (split (normalize_name a)) →
      match_names true a b = 0.95%float)
  ∧ (∀ (a b : pyval) (w1 w2 : pystr),
        split (normalize_name a) = [w1] → split (normalize_name b) = [w2] →
        w1 ≠ w2 →
        match_names true a b = fuzzy_match (normalize_name a) (normalize_name b))
  ∧ PrimFloat.ltb (match_names true (PStr (lit "Ivan")) (PStr (lit "Ivanova")))
      0.85%float = true
  ∧ fge (match_names true (PStr (lit "Ivanov")) (PStr (lit "Ivanov Ivan")))
      0.95%float = true.
Proof.
  split; [| split; [| split]].
  - intros a b H1 H2 H12 Hsub. rewrite match_names_unfold by done. simpl.
    destruct Hsub as [Hsub | Hsub].
    + by rewrite (bool_decide_eq_true_2 _ Hsub).
    + by rewrite (bool_decide_eq_true_2 _ Hsub), orb_true_r.
  - intros a b w1 w2 Hw1 Hw2 Hne.
    rewrite match_names_unfold.
    + simpl. rewrite Hw1, Hw2. simpl.
      assert (∀ u v : pystr, u ≠ v →
                ¬ (list_to_set [u] : gset pystr) ⊆ list_to_set [v]) as Hns.
      { intros u v Huv Hs. apply Huv.
        assert (u ∈ (list_to_set [v] : gset pystr)) as Hin.
        { apply Hs, elem_of_list_to_set. by left. }
        apply elem_of_list_to_set in Hin. by apply list_elem_of_singleton in Hin. }
      rewrite !bool_decide_eq_false_2 by (apply Hns; congruence). simpl.
      apply str_eqb_neq in Hne. by rewrite Hne.
    + intros E. by rewrite E in Hw1.
    + intros E. by rewrite E in Hw2.
    + intros E. rewrite E in Hw1. congruence.
  - by vm_compute.
  - by vm_compute.
Qed.

Lemma match_names_word_boundary_witness :
  match_names true (PStr (lit "Ivanov")) (PStr (lit "Ivanov Ivan")) = 0.95%float
  ∧ match_names true (PStr (lit "Ivan")) (PStr (lit "Ivanova"))
    = fuzzy_match (normalize_name (PStr (lit "Ivan")))
        (normalize_name (PStr (lit "Ivanova"))).
Proof.
  split.
  - apply (proj1 match_names_word_boundary).
    + vm_compute. discriminate.
    + vm_compute. discriminate.
    + vm_compute. discriminate.
    + left. apply (bool_decide_unpack _). vm_compute. exact I.
  - apply (proj1 (proj2 match_names_word_boundary) _ _ (lit "ivan") (lit "ivanova")).
    + reflexivity.
    + reflexivity.
    + vm_compute. discriminate.
Defined.

(** C2: the surname branch of [match_names] can return more than 1.0:
    two names with the same first word that differ by one doubled
    letter have ratio 62/63 and score 1.0041. *)
Theorem match_names_exceeds_one :
  let a := PStr (lit "Ivanova Aleksandra Vladimirovna") in
  let b := PStr (lit "Ivanova Aleksandra Vladimirovnaa") in
  match_names true a b
  = (fuzzy_match (normalize_name a) (normalize_name b) + 0.02)%float
  ∧ fgt (match_names true a b) 1%float = true.
Proof. by vm_compute. Qed.
End matcher.

(** ** Duplicate pages *)

Section duplicates.
Import Py client_card_ocr.
Context (rf_fuzz : option RapidFuzz) (config : Config).
Context (path_exists : pystr → bool).
Context (image_pixels : pystr → nat → option (list nat)).
Context (json_dumps : pyval → pystr).







End duplicates.

Section duplicates_examples.
Import Py client_card_ocr scenarios.


(** C3: the loop goes on comparing a page it has just put in the removal
    set. On [three_pages] the first page is a duplicate of the second and
    is marked (its text is shorter); it is then compared with the third,
    which is marked because of it, although the third is no duplicate of
    the second, the only page that is kept. *)
Theorem removed_page_is_compared_again :
  let dups := find_duplicates None default_config no_files no_pixels no_repr three_pages in
  let marked : gset nat := {[ 0 ]} in
  dups.2 = [(0, 1, ∅); (0, 2, marked)]
  ∧ 0 ∈ dups.1 ∧ 2 ∈ dups.1 ∧ (1 ∉ dups.1)
  ∧ duplicate_at None default_config no_repr three_pages
      (map (page_hash default_config no_files no_pixels) three_pages) 1 2 = false.
Proof.
  intros dups marked.
  assert (dups = ({[ 2 ]} ∪ ({[ 0 ]} ∪ ∅), [(0, 1, ∅); (0, 2, (marked ∪ ∅))])) as ->.
  { apply (bool_decide_unpack _). by vm_compute. }
  simpl. split; [| split; [| split; [| split]]].
  - by rewrite (right_id_L ∅ (∪)).
  - set_solver.
  - set_solver.
  - set_solver.
  - by vm_compute.
Qed.
End duplicates_examples.

(** ** Matching a page against the clusters *)

Section matching.
Import Py client_card_ocr.
Context (rf_fuzz : option RapidFuzz).

Lemma result_bind_Ok {A B} (a : A) (f : A → result B) : (Ok a ≫= f) = f a.
Proof. reflexivity. Qed.

Lemma result_bind_inv {A B} (m : result A) (f : A → result B) (b : B) :
  (m ≫= f) = Ok b → ∃ a, m = Ok a ∧ f a = Ok b.
Proof. destruct m as [a | e]; [by exists a | done]. Qed.

(** The scan stops at the first cluster that passes a check: clusters
    after it are not looked at, and a cluster is reached only when no
    cluster before it matched. *)
Lemma find_loop_app new_fio new_phone new_iin threshold (before rest : list (pystr * client)) :
  find_loop rf_fuzz new_fio new_phone new_iin threshold (before ++ rest)
  = match find_loop rf_fuzz new_fio new_phone new_iin threshold before with
    | Ok None => find_loop rf_fuzz new_fio new_phone new_iin threshold rest
    | r => r
    end.
Proof.
  induction before as [|[k c] before IH]; simpl; [done |].
  destruct (check_iin new_iin c) as [[] | ?]; simpl; try done.
  destruct (check_phone new_phone c) as [[] | ?]; simpl; try done.
  destruct (check_fio rf_fuzz new_fio threshold c) as [[] | ?]; simpl; done.
Qed.

Lemma find_matching_client_Ok_inv ids clients threshold r :
  find_matching_client rf_fuzz ids clients threshold = Ok r →
  ∃ phone iin,
    ids_phone ids = PStr phone ∧ ids_iin ids = PStr iin
    ∧ find_loop rf_fuzz (ids_fio ids) (clean_phone phone) (replace 32 [] iin)
        threshold clients = Ok r.
Proof.
  unfold find_matching_client. intros H.
  destruct (ids_phone ids) as [| | | | phone | |]; try done.
  destruct (ids_iin ids) as [| | | | iin | |]; try done.
  by exists phone, iin.
Qed.

(** A key that is returned is the key of a cluster. *)
Lemma find_loop_key new_fio new_phone new_iin threshold clients key :
  find_loop rf_fuzz new_fio new_phone new_iin threshold clients = Ok (Some key) →
  key ∈ map fst clients.
Proof.
  induction clients as [|[k c] clients IH]; simpl; [done |].
  destruct (check_iin new_iin c) as [[] | ?]; simpl; try done.
  { intros [= ->]. by left. }
  destruct (check_phone new_phone c) as [[] | ?]; simpl; try done.
  { intros [= ->]. by left. }
  destruct (check_fio rf_fuzz new_fio threshold c) as [[] | ?]; simpl; try done.
  { intros [= ->]. by left. }
  intros H. right. by apply IH.
Qed.

Lemma length_nonempty (s : pystr) : 7 ≤ length s → str_eqb s [] = false.
Proof. intros H. apply str_eqb_neq. intros ->. simpl in H. lia. Qed.

(** C8 (as amended): a cluster whose national id, or whose phone in its
    last seven characters, equals the page's is returned whatever the
    names are, provided no cluster created before it matches the page by
    any of the three checks. *)
Theorem exact_identifier_first_fit (ids : identifiers)
    (before : list (pystr * client)) (key : pystr) (client_data : client)
    (after : list (pystr * client)) (threshold : float) :
  find_matching_client rf_fuzz ids before threshold = Ok None →
  truthy (c_iin client_data) = false ∨ is_str (c_iin client_data) = true →
  same_national_id ids client_data = true ∨ same_phone_tail ids client_data = true →
  find_matching_client rf_fuzz ids (before ++ (key, client_data) :: after) threshold
  = Ok (Some key).
Proof.
  intros Hbefore Hiin Hsame.
  apply find_matching_client_Ok_inv in Hbefore as (phone & iin & Hp & Hi & Hloop).
  unfold find_matching_client. rewrite Hp, Hi. simpl.
  rewrite find_loop_app, Hloop. simpl.
  unfold same_national_id, same_phone_tail in Hsame. rewrite Hp, Hi in Hsame.
  destruct Hsame as [Hsame | Hsame].
  - destruct (c_iin client_data) as [| | | | ciin | |] eqn:Hc; try done.
    apply andb_true_iff in Hsame as [[Hn Hcn]%andb_true_iff Heq].
    unfold check_iin. rewrite Hc. simpl. by rewrite Hn, Hcn, Heq.
  - assert (∃ b, check_iin (replace 32 [] iin) client_data = Ok b) as [b ->].
    { unfold check_iin. destruct (negb _); simpl; [| by eexists].
      destruct Hiin as [-> | Hs]; [by eexists |].
      destruct (c_iin client_data); try done.
      destruct (truthy _); simpl; by eexists. }
    simpl. destruct b; [done |].
    destruct (c_phone client_data) as [| | | | cphone | |] eqn:Hc; try done.
    apply andb_true_iff in Hsame as [[Hn Hcn]%andb_true_iff Heq].
    assert (str_eqb cphone [] = false) as Hne.
    { apply str_eqb_neq. intros ->. by vm_compute in Hcn. }
    apply Nat.leb_le in Hcn.
    unfold check_phone. rewrite Hc. cbn [truthy as_str mbind result_bind].
    rewrite Hn, Hne, Heq.
    rewrite (length_nonempty (clean_phone phone)) by (by apply Nat.leb_le).
    by rewrite (length_nonempty (clean_phone cphone)).
Qed.
End matching.

Section matching_examples.
Import Py client_card_ocr scenarios.

Lemma exact_identifier_first_fit_witness :
  find_matching_client None
    {| ids_fio := PStr (lit "Sidorova Elena"); ids_phone := PStr (lit "8 (700) 123-45-67");
       ids_iin := PStr [] |}
    ([(lit "client_1",
       {| c_name := PStr (lit "Ivanova Anna"); c_phone := PStr (lit "+7 777 000 11 22");
          c_iin := PStr []; c_pages := [] |})]
     ++ (lit "client_2",
         {| c_name := PStr (lit "Petrova Maria"); c_phone := PStr (lit "+7 700 123 45 67");
            c_iin := PStr []; c_pages := [] |}) :: [])
    0.75%float
  = Ok (Some (lit "client_2")).
Proof.
  apply exact_identifier_first_fit.
  - by vm_compute.
  - by left.
  - right. by vm_compute.
Defined.

(** C8 (as stated) fails: the page of [shared_id_page] has the national id
    of the second cluster of [two_clusters], and is given to the first,
    whose name it matches. *)
Lemma earlier_cluster_wins :
  (lit "client_2", second_cluster) ∈ two_clusters
  ∧ same_national_id shared_id_page second_cluster = true
  ∧ find_matching_client None shared_id_page two_clusters 0.75%float
    = Ok (Some (lit "client_1"))
  ∧ find_matching_client None shared_id_page two_clusters 0.75%float
    ≠ Ok (Some (lit "client_2")).
Proof.
  split; [| split; [| split]].
  - right. left.
  - by vm_compute.
  - by vm_compute.
  - vm_compute. discriminate.
Qed.
End matching_examples.

(** ** Dicts in insertion order *)

Section dicts.
Import Py.
Context {V : Type}.

Lemma dict_update_keys (k : pystr) (f : V → V) (d : list (pystr * V)) :
  map fst (dict_update k f d) = map fst d.
Proof.
  induction d as [|[k' v] d IH]; simpl; [done |].
  destruct (str_eqb k' k); simpl; by rewrite ?IH.
Qed.

Lemma dict_get_update (k k' : pystr) (f : V → V) (d : list (pystr * V)) :
  dict_get k (dict_update k' f d)
  = if str_eqb k' k then f <$> dict_get k d else dict_get k d.
Proof.
  induction d as [|[k0 v] d IH]; simpl.
  { by destruct (str_eqb k' k). }
  destruct (str_eqb k0 k') eqn:E0; simpl.
  - apply str_eqb_eq in E0 as ->. by destruct (str_eqb k' k).
  - destruct (str_eqb k0 k) eqn:E1; simpl; [| done].
    apply str_eqb_eq in E1 as ->. by rewrite str_eqb_sym, E0.
Qed.

Lemma dict_get_None (k : pystr) (d : list (pystr * V)) :
  dict_get k d = None ↔ k ∉ map fst d.
Proof.
  induction d as [|[k' v] d IH]; simpl.
  { split; [intros _; apply not_elem_of_nil | done]. }
  rewrite not_elem_of_cons. destruct (str_eqb k' k) eqn:E.
  - apply str_eqb_eq in E as ->. split; [done | by intros []].
  - apply str_eqb_neq in E. rewrite IH. split; [by split | by intros []].
Qed.

Lemma dict_get_app_fresh (k k' : pystr) (v : V) (d : list (pystr * V)) :
  dict_get k d = None →
  dict_get k' (d ++ [(k, v)]) = if str_eqb k k' then Some v else dict_get k' d.
Proof.
  induction d as [|[k0 v0] d IH]; simpl; [done |].
  destruct (str_eqb k0 k) eqn:E0; [done |]. intros Hd.
  destruct (str_eqb k0 k') eqn:E1; [| by apply IH].
  apply str_eqb_eq in E1 as ->. by rewrite str_eqb_sym, E0.
Qed.
End dicts.

(** ** The registry index *)

Section registry.
Import Py verify_with_db.

(** The first loop: the keys are the distinct non-empty normalized names,
    in the order they first occur, and no entry has an id yet. *)
Lemma add_row_keys (index : list (pystr * db_client)) (row : db_row) :
  map fst (add_row index row)
  = map fst index
    ++ (if str_eqb (row_name_norm row) [] then []
        else match dict_get (row_name_norm row) index with
             | Some _ => []
             | None => [row_name_norm row]
             end).
Proof.
  unfold add_row. destruct (str_eqb _ []); [by rewrite app_nil_r |].
  rewrite dict_update_keys.
  destruct (dict_get _ index); [by rewrite app_nil_r | by rewrite map_app].
Qed.

Lemma add_row_NoDup (index : list (pystr * db_client)) (row : db_row) :
  NoDup (map fst index) → NoDup (map fst (add_row index row)).
Proof.
  intros Hnd. rewrite add_row_keys.
  destruct (str_eqb _ []); [by rewrite app_nil_r |].
  destruct (dict_get _ index) eqn:E; [by rewrite app_nil_r |].
  apply dict_get_None in E. apply NoDup_app. split; [done |].
  split; [| apply NoDup_singleton].
  intros k Hk ->%list_elem_of_singleton. done.
Qed.

Lemma add_row_elem_of (index : list (pystr * db_client)) (row : db_row) (k : pystr) :
  k ∈ map fst (add_row index row)
  ↔ k ∈ map fst index ∨ (k ≠ [] ∧ k = row_name_norm row).
Proof.
  rewrite add_row_keys, elem_of_app.
  destruct (str_eqb _ []) eqn:E0.
  - apply str_eqb_eq in E0. rewrite elem_of_nil. split; [tauto |].
    intros [? | [? ->]]; [by left | done].
  - apply str_eqb_neq in E0. destruct (dict_get _ index) eqn:E.
    + assert (row_name_norm row ∈ map fst index) as Hin.
      { destruct (decide (row_name_norm row ∈ map fst index)) as [| Hn]; [done |].
        apply dict_get_None in Hn. congruence. }
      rewrite elem_of_nil. split; [tauto |].
      intros [? | [? ->]]; by left.
    + rewrite list_elem_of_singleton. split.
      * intros [? | ->]; [by left | by right].
      * intros [? | [? ->]]; [by left | by right].
Qed.

Lemma add_row_db_id (index : list (pystr * db_client)) (row : db_row) (k : pystr) :
  (∀ e, dict_get k index = Some e → db_id e = []) →
  ∀ e, dict_get k (add_row index row) = Some e → db_id e = [].
Proof.
  intros Hid e. unfold add_row.
  destruct (str_eqb _ []); [apply Hid |].
  rewrite dict_get_update.
  destruct (dict_get (row_name_norm row) index) eqn:E.
  - destruct (str_eqb _ k); [| apply Hid].
    destruct (dict_get k index) eqn:E'; simpl; [| done].
    intros [= <-]. simpl. by apply Hid.
  - rewrite dict_get_app_fresh by done.
    destruct (str_eqb _ k); simpl; [by intros [= <-] | apply Hid].
Qed.

Lemma foldl_add_row_NoDup (rows : list db_row) (index : list (pystr * db_client)) :
  NoDup (map fst index) → NoDup (map fst (foldl add_row index rows)).
Proof.
  revert index. induction rows as [|row rows IH]; intros index Hnd; simpl; [done |].
  by apply IH, add_row_NoDup.
Qed.

Lemma foldl_add_row_elem_of (rows : list db_row) (index : list (pystr * db_client)) k :
  k ∈ map fst (foldl add_row index rows)
  ↔ k ∈ map fst index ∨ (k ≠ [] ∧ k ∈ map row_name_norm rows).
Proof.
  revert index. induction rows as [|row rows IH]; intros index; simpl.
  { rewrite elem_of_nil. tauto. }
  rewrite IH, add_row_elem_of, elem_of_cons. naive_solver.
Qed.

Lemma foldl_add_row_db_id (rows : list db_row) (index : list (pystr * db_client)) k :
  (∀ e, dict_get k index = Some e → db_id e = []) →
  ∀ e, dict_get k (foldl add_row index rows) = Some e → db_id e = [].
Proof.
  revert index. induction rows as [|row rows IH]; intros index Hid; simpl; [done |].
  by apply IH, add_row_db_id.
Qed.

(** The names the index is keyed by do not depend on the order of the
    rows, up to their own order. *)
Lemma index_keys_Permutation (rows1 rows2 : list db_row) :
  rows1 ≡ₚ rows2 →
  map fst (foldl add_row [] rows1) ≡ₚ map fst (foldl add_row [] rows2).
Proof.
  intros Hp. apply NoDup_Permutation.
  - apply foldl_add_row_NoDup, NoDup_nil_2.
  - apply foldl_add_row_NoDup, NoDup_nil_2.
  - intros k. rewrite !foldl_add_row_elem_of. by rewrite Hp.
Qed.

(** *** Sorting the visits of a client *)

Lemma forallb_true {A} (f : A → bool) (l : list A) :
  forallb f l = true ↔ ∀ x, x ∈ l → f x = true.
Proof.
  induction l as [|x l IH]; simpl.
  { split; [by intros _ x Hx%elem_of_nil | done]. }
  rewrite andb_true_iff, IH. split.
  - intros [Hx Hl] y [-> | Hy]%elem_of_cons; [done | by apply Hl].
  - intros H. split; [apply H; apply elem_of_cons; by left |].
    intros y Hy. apply H, elem_of_cons. by right.
Qed.

Lemma forallb_false {A} (f : A → bool) (l : list A) :
  forallb f l = false → ∃ x, x ∈ l ∧ f x = false.
Proof.
  induction l as [|x l IH]; simpl; [done |].
  destruct (f x) eqn:E; simpl.
  - intros (y & Hy & Hf)%IH. exists y. split; [| done].
    apply elem_of_cons. by right.
  - intros _. exists x. split; [| done]. apply elem_of_cons. by left.
Qed.

Lemma same_awareness_uniform {A} (key : A → Timestamp) (l : list A) :
  same_awareness key l = true
  ↔ ∀ x y, x ∈ l → y ∈ l → ts_aware (key x) = ts_aware (key y).
Proof.
  destruct l as [|x0 l]; simpl.
  { split; [by intros _ x y Hx%elem_of_nil | done]. }
  rewrite forallb_true. split.
  - intros H.
    assert (∀ z, z ∈ x0 :: l → ts_aware (key z) = ts_aware (key x0)) as Hall.
    { intros z [-> | Hz]%elem_of_cons; [done |]. by apply Bool.eqb_prop, H. }
    intros x y Hx Hy. by rewrite (Hall x), (Hall y).
  - intros H y Hy. apply Bool.eqb_true_iff.
    apply H; apply elem_of_cons; [by right | by left].
Qed.

Lemma Timestamp_lt_same (a b : Timestamp) :
  ts_aware a = ts_aware b → Timestamp_lt a b = Ok (ts_value a <? ts_value b)%Z.
Proof. unfold Timestamp_lt. intros ->. by rewrite Bool.eqb_reflx. Qed.

Lemma Timestamp_lt_mixed (a b : Timestamp) :
  ts_aware a ≠ ts_aware b → Timestamp_lt a b = Raise TypeError.
Proof.
  unfold Timestamp_lt. intros H.
  destruct (Bool.eqb (ts_aware a) (ts_aware b)) eqn:E; [| done].
  by apply Bool.eqb_prop in E.
Qed.

(** Among keys that are all tz-aware or all tz-naive no comparison
    raises, and the element goes where the stable sort puts it. *)
Lemma insert_by_key_uniform {A} (key : A → Timestamp) (x : A) (l : list A) :
  (∀ y, y ∈ l → ts_aware (key y) = ts_aware (key x)) →
  insert_by_key Timestamp_lt key x l
  = Ok (insert_sorted (λ v w, (ts_value (key v) <=? ts_value (key w))%Z) x l).
Proof.
  induction l as [|y l IH]; intros H; [done |].
  cbn [insert_by_key insert_sorted].
  rewrite Timestamp_lt_same by (apply H, elem_of_cons; by left).
  rewrite Z.ltb_antisym.
  destruct (ts_value (key x) <=? ts_value (key y))%Z; [done |].
  cbn [negb mbind result_bind]. rewrite IH; [done |].
  intros z Hz. apply H, elem_of_cons. by right.
Qed.

(** [list.sort] on timestamp keys: the stable sort by value when the
    keys are all tz-aware or all tz-naive, a [TypeError] otherwise. *)
Lemma list_sort_Timestamp {A} (key : A → Timestamp) (l : list A) :
  list_sort Timestamp_lt key l
  = if same_awareness key l
    then Ok (sorted (λ v w, (ts_value (key v) <=? ts_value (key w))%Z) l)
    else Raise TypeError.
Proof.
  induction l as [|x l IH]; [done |].
  change (list_sort Timestamp_lt key (x :: l))
    with (acc ← list_sort Timestamp_lt key l; insert_by_key Timestamp_lt key x acc).
  rewrite IH. destruct (same_awareness key (x :: l)) eqn:E.
  - rewrite same_awareness_uniform in E.
    assert (same_awareness key l = true) as ->.
    { apply same_awareness_uniform. intros y z Hy Hz.
      apply E; apply elem_of_cons; by right. }
    cbn [mbind result_bind]. rewrite insert_by_key_uniform; [done |].
    intros y Hy. rewrite sorted_Permutation in Hy.
    apply E; apply elem_of_cons; [by right | by left].
  - cbn [same_awareness] in E.
    apply forallb_false in E as (y & Hy & Hne). apply Bool.eqb_false_iff in Hne.
    destruct (same_awareness key l) eqn:El; [| done].
    rewrite same_awareness_uniform in El. cbn [mbind result_bind].
    destruct (sorted _ l) as [|z s] eqn:Es.
    + assert (y ∈ sorted (λ v w, (ts_value (key v) <=? ts_value (key w))%Z) l)
        as Hin by (by rewrite sorted_Permutation).
      rewrite Es in Hin. by apply elem_of_nil in Hin.
    + assert (z ∈ l) as Hz.
      { rewrite <- (sorted_Permutation
                     (λ v w, (ts_value (key v) <=? ts_value (key w))%Z)), Es.
        apply elem_of_cons. by left. }
      cbn [insert_by_key]. rewrite Timestamp_lt_mixed; [done |].
      by rewrite (El z y Hz Hy).
Qed.

(** *** The second loop *)

Lemma dict_update_ext {V} (k : pystr) (f g : V → V) (d : list (pystr * V)) :
  (∀ v, dict_get k d = Some v → f v = g v) →
  dict_update k f d = dict_update k g d.
Proof.
  induction d as [|[k' v] d IH]; simpl; [done |].
  destruct (str_eqb k' k); intros H; [by rewrite (H v) | by rewrite IH].
Qed.

Lemma assign_id_spec (index : list (pystr * db_client)) (n : nat) (k : pystr) :
  assign_id index (n, k)
  = match dict_get k index with
    | None => Raise KeyError
    | Some e =>
        if same_awareness visit_key (visits e)
        then Ok (dict_update k (numbered_entry n) index)
        else Raise TypeError
    end.
Proof.
  unfold assign_id. destruct (dict_get k index) as [e |] eqn:E; [| done].
  rewrite list_sort_Timestamp. destruct (same_awareness _ _); [| done].
  cbn [mbind result_bind]. f_equal. apply dict_update_ext.
  intros v Hv. rewrite E in Hv. injection Hv as <-.
  unfold numbered_entry. by rewrite sorted_length.
Qed.

Lemma number_all_keys (numbered : list (nat * pystr))
    (index : list (pystr * db_client)) :
  map fst (number_all index numbered) = map fst index.
Proof.
  unfold number_all. revert index.
  induction numbered as [|[n k] numbered IH]; intros index; simpl; [done |].
  by rewrite IH, dict_update_keys.
Qed.

(** Whatever the loop returns is the index with its entries numbered. *)
Lemma for_each_assign_id_Ok (numbered : list (nat * pystr))
    (index index' : list (pystr * db_client)) :
  for_each assign_id index numbered = Ok index' →
  index' = number_all index numbered.
Proof.
  revert index. induction numbered as [|[n k] numbered IH]; intros index.
  { by intros [= <-]. }
  cbn [for_each]. rewrite assign_id_spec.
  destruct (dict_get k index); [| done].
  destruct (same_awareness _ _); [| done].
  cbn [mbind result_bind]. apply IH.
Qed.

(** The loop returns when the visits of every entry can be ordered. *)
Lemma for_each_assign_id_good (numbered : list (nat * pystr))
    (index : list (pystr * db_client)) :
  (∀ k, k ∈ numbered.*2 → k ∈ map fst index) →
  (∀ k e, dict_get k index = Some e → same_awareness visit_key (visits e) = true) →
  for_each assign_id index numbered = Ok (number_all index numbered).
Proof.
  revert index. induction numbered as [|[n k] numbered IH];
    intros index Hkeys Hgood; [done |].
  cbn [for_each]. rewrite assign_id_spec.
  destruct (dict_get k index) as [e |] eqn:E.
  2: { apply dict_get_None in E. destruct E. apply Hkeys, elem_of_cons. by left. }
  rewrite (Hgood k e E). cbn [mbind result_bind]. apply IH.
  - intros k' Hk'. rewrite dict_update_keys. apply Hkeys, elem_of_cons. by right.
  - intros k' e'. rewrite dict_get_update. destruct (str_eqb k k') eqn:Ek.
    + apply str_eqb_eq in Ek as <-. rewrite E. intros [= <-].
      cbn [visits numbered_entry]. apply same_awareness_uniform.
      intros x y Hx Hy. rewrite sorted_Permutation in Hx, Hy.
      revert x y Hx Hy. apply same_awareness_uniform. by apply (Hgood k).
    + apply Hgood.
Qed.

(** The loop raises [TypeError] when the visits of an entry it reaches
    cannot be ordered. *)
Lemma for_each_assign_id_bad (numbered : list (nat * pystr))
    (index : list (pystr * db_client)) (k : pystr) (e : db_client) :
  (∀ k, k ∈ numbered.*2 → k ∈ map fst index) →
  k ∈ numbered.*2 → dict_get k index = Some e →
  same_awareness visit_key (visits e) = false →
  for_each assign_id index numbered = Raise TypeError.
Proof.
  revert index. induction numbered as [|[n k0] numbered IH];
    intros index Hkeys Hk He Hbad.
  { by apply elem_of_nil in Hk. }
  cbn [for_each]. rewrite assign_id_spec.
  destruct (dict_get k0 index) as [e0 |] eqn:E0.
  2: { apply dict_get_None in E0. destruct E0. apply Hkeys, elem_of_cons. by left. }
  destruct (same_awareness visit_key (visits e0)) eqn:Es; [| done].
  cbn [mbind result_bind].
  assert (k0 ≠ k) as Hne by (intros ->; congruence).
  apply IH.
  - intros k' Hk'. rewrite dict_update_keys. apply Hkeys, elem_of_cons. by right.
  - cbn [fmap list_fmap snd] in Hk. by apply elem_of_cons in Hk as [-> | Hk].
  - rewrite dict_get_update. apply str_eqb_neq in Hne. by rewrite Hne.
  - done.
Qed.

(** The ids the numbering leaves, seen from one name. *)
Lemma number_all_id (name : pystr) (numbered : list (nat * pystr))
    (index : list (pystr * db_client)) :
  db_id <$> dict_get name (number_all index numbered)
  = final_id name numbered (db_id <$> dict_get name index).
Proof.
  unfold final_id, number_all. revert index.
  induction numbered as [|[n k] numbered IH]; intros index; simpl; [done |].
  rewrite IH. f_equal. rewrite dict_get_update.
  destruct (str_eqb k name); [| done]. by destruct (dict_get name index).
Qed.

Lemma final_id_fresh (name : pystr) (numbered : list (nat * pystr)) o :
  name ∉ numbered.*2 → final_id name numbered o = o.
Proof.
  unfold final_id. revert o.
  induction numbered as [|[n k] numbered IH]; intros o Hn; simpl; [done |].
  simpl in Hn. apply not_elem_of_cons in Hn as [Hk Hn].
  rewrite IH by done. apply not_eq_sym, str_eqb_neq in Hk. by rewrite Hk.
Qed.

Lemma zip_seq_snd {A} (a : nat) (l : list A) : (zip (seq a (length l)) l).*2 = l.
Proof. apply snd_zip. by rewrite length_seq. Qed.

Lemma final_id_rank (name : pystr) (names : list pystr) (a i : nat) (x : pystr) :
  NoDup names → names !! i = Some name →
  final_id name (zip (seq a (length names)) names) (Some x)
  = Some (lit "DB-" ++ format_04d (a + i)).
Proof.
  revert a i x. induction names as [|k names IH]; intros a i x Hnd Hi; [done |].
  apply NoDup_cons in Hnd as [Hk Hnd]. destruct i as [|i]; simpl in Hi.
  - injection Hi as ->. change (length (name :: names)) with (S (length names)).
    cbn [seq zip zip_with]. unfold final_id. cbn [foldl snd fst].
    rewrite str_eqb_refl. simpl fmap.
    change (foldl _ ?o ?l) with (final_id name l o).
    rewrite final_id_fresh by (by rewrite zip_seq_snd).
    by rewrite Nat.add_0_r.
  - assert (k ≠ name) as Hne.
    { intros ->. apply Hk. by eapply list_elem_of_lookup_2. }
    change (length (k :: names)) with (S (length names)).
    cbn [seq zip zip_with]. unfold final_id. cbn [foldl snd fst].
    apply str_eqb_neq in Hne. rewrite Hne.
    change (foldl _ ?o ?l) with (final_id name l o).
    rewrite (IH (S a) i) by done. do 3 f_equal. lia.
Qed.

(** *** The visits of an entry, from the rows *)

Lemma add_row_visits (index : list (pystr * db_client)) (row : db_row)
    (name : pystr) :
  name ≠ [] →
  default [] (visits <$> dict_get name (add_row index row))
  = default [] (visits <$> dict_get name index)
    ++ (if str_eqb (row_name_norm row) name then [row_visit row] else []).
Proof.
  intros Hname. unfold add_row.
  destruct (str_eqb (row_name_norm row) []) eqn:E0.
  { apply str_eqb_eq in E0. rewrite E0.
    apply not_eq_sym, str_eqb_neq in Hname. by rewrite Hname, app_nil_r. }
  rewrite dict_get_update.
  destruct (str_eqb (row_name_norm row) name) eqn:E.
  - apply str_eqb_eq in E. subst name.
    destruct (dict_get (row_name_norm row) index) as [e |] eqn:Hget.
    + by rewrite Hget.
    + by rewrite dict_get_app_fresh, str_eqb_refl.
  - rewrite app_nil_r.
    destruct (dict_get (row_name_norm row) index) eqn:Hget; [done |].
    by rewrite dict_get_app_fresh, E.
Qed.

Lemma foldl_add_row_visits (rows : list db_row) (index : list (pystr * db_client))
    (name : pystr) :
  name ≠ [] →
  default [] (visits <$> dict_get name (foldl add_row index rows))
  = default [] (visits <$> dict_get name index) ++ map row_visit (rows_of name rows).
Proof.
  intros Hname. revert index.
  induction rows as [|row rows IH]; intros index; cbn [foldl].
  { by rewrite app_nil_r. }
  rewrite IH, add_row_visits, <- app_assoc by done. f_equal.
  unfold rows_of. cbn [List.filter].
  by destruct (str_eqb (row_name_norm row) name).
Qed.

Lemma elem_of_rows_of (name : pystr) (rows : list db_row) (row : db_row) :
  row ∈ rows_of name rows ↔ row ∈ rows ∧ row_name_norm row = name.
Proof.
  unfold rows_of. induction rows as [|r rows IH]; cbn [List.filter].
  { rewrite elem_of_nil. tauto. }
  destruct (str_eqb (row_name_norm r) name) eqn:E.
  - apply str_eqb_eq in E. rewrite !elem_of_cons, IH. naive_solver.
  - apply str_eqb_neq in E. rewrite elem_of_cons, IH. naive_solver.
Qed.

(** An entry of the first loop belongs to a non-empty normalized name of
    the table and has the visits of the rows of that name, in their
    order. *)
Lemma index_entry_visits (rows : list db_row) (name : pystr) (e : db_client) :
  dict_get name (foldl add_row [] rows) = Some e →
  name ≠ [] ∧ name ∈ map row_name_norm rows
  ∧ visits e = map row_visit (rows_of name rows).
Proof.
  intros Hget.
  assert (name ∈ map fst (foldl add_row [] rows)) as Hin.
  { destruct (decide (name ∈ map fst (foldl add_row [] rows))) as [| Hn]; [done |].
    apply dict_get_None in Hn. congruence. }
  apply foldl_add_row_elem_of in Hin as [Hin | [Hname Hin]].
  { by apply elem_of_nil in Hin. }
  split; [done |]. split; [done |].
  pose proof (foldl_add_row_visits rows [] name Hname) as Hv.
  by rewrite Hget in Hv.
Qed.

Lemma orderable_spec (rows : list db_row) :
  orderable rows = true
  ↔ ∀ r1 r2, r1 ∈ rows → r2 ∈ rows →
             row_name_norm r1 = row_name_norm r2 → row_name_norm r1 ≠ [] →
             ts_aware (visit_key (row_visit r1)) = ts_aware (visit_key (row_visit r2)).
Proof.
  unfold orderable. rewrite forallb_true. split.
  - intros H r1 r2 H1 H2 Hn Hne.
    specialize (H r1 H1). apply orb_true_iff in H as [H | H].
    { by apply str_eqb_eq in H. }
    rewrite same_awareness_uniform in H.
    apply H; apply list_elem_of_fmap; eexists; (split; [done |]);
      by apply elem_of_rows_of.
  - intros H row Hrow. destruct (str_eqb (row_name_norm row) []) eqn:E; [done |].
    apply str_eqb_neq in E. cbn [orb]. apply same_awareness_uniform.
    intros v w (r1 & -> & [H1 Hn1]%elem_of_rows_of)%list_elem_of_fmap
      (r2 & -> & [H2 Hn2]%elem_of_rows_of)%list_elem_of_fmap.
    apply H; congruence.
Qed.

Lemma orderable_Permutation (rows1 rows2 : list db_row) :
  rows1 ≡ₚ rows2 → orderable rows1 = orderable rows2.
Proof.
  intros Hp. apply eq_true_iff_eq. rewrite !orderable_spec.
  split; intros H r1 r2 H1 H2; apply H;
    first [by rewrite Hp | by rewrite <- Hp].
Qed.

(** *** What [build_db_client_index] returns *)

Lemma build_db_client_index_cases (rows : list db_row) :
  build_db_client_index rows
  = if orderable rows
    then Ok (number_all (foldl add_row [] rows)
               (enumerate1 (sorted str_leb (map fst (foldl add_row [] rows)))))
    else Raise TypeError.
Proof.
  unfold build_db_client_index.
  assert (∀ k, k ∈ (enumerate1 (sorted str_leb (map fst (foldl add_row [] rows)))).*2
               → k ∈ map fst (foldl add_row [] rows)) as Hkeys.
  { intros k. unfold enumerate1. by rewrite zip_seq_snd, sorted_Permutation. }
  destruct (orderable rows) eqn:Ho.
  - apply for_each_assign_id_good; [done |].
    intros k e (Hk & Hin & ->)%index_entry_visits.
    apply list_elem_of_fmap in Hin as (row & -> & Hrow).
    unfold orderable in Ho. rewrite forallb_true in Ho.
    specialize (Ho row Hrow). apply orb_true_iff in Ho as [H0 | H0]; [| done].
    by apply str_eqb_eq in H0.
  - unfold orderable in Ho. apply forallb_false in Ho as (row & Hrow & Ho).
    apply orb_false_iff in Ho as [Hname Hbad]. apply str_eqb_neq in Hname.
    assert (row_name_norm row ∈ map fst (foldl add_row [] rows)) as Hin.
    { rewrite foldl_add_row_elem_of. right. split; [done |].
      apply list_elem_of_fmap. by exists row. }
    destruct (dict_get (row_name_norm row) (foldl add_row [] rows)) as [e |] eqn:E.
    2: { by apply dict_get_None in E. }
    apply (for_each_assign_id_bad _ _ (row_name_norm row) e); [done | | done |].
    + unfold enumerate1. by rewrite zip_seq_snd, sorted_Permutation.
    + apply index_entry_visits in E as (_ & _ & ->). done.
Qed.

(** [build_db_client_index] returns an index when the visits of every
    client can be ordered, and raises [TypeError] when a client has a
    visit with a tz-aware date next to a visit with no date (or with a
    tz-naive date). *)
Theorem build_db_client_index_outcome (rows : list db_row) :
  (orderable rows = true → ∃ index, build_db_client_index rows = Ok index)
  ∧ (orderable rows = false → build_db_client_index rows = Raise TypeError).
Proof.
  rewrite build_db_client_index_cases.
  split; intros ->; [by eexists | done].
Qed.

(** Reordering the rows changes neither whether the call raises nor the
    id a name receives. *)
Theorem db_id_outcome_row_order_independent (rows1 rows2 : list db_row)
    (name : pystr) :
  rows1 ≡ₚ rows2 → db_id_of name rows1 = db_id_of name rows2.
Proof.
  intros Hp. unfold db_id_of. rewrite !build_db_client_index_cases.
  rewrite <- (orderable_Permutation _ _ Hp).
  destruct (orderable rows1); [| done].
  cbn [mbind result_bind]. f_equal. rewrite !number_all_id. unfold enumerate1.
  rewrite (sorted_str_perm _ _ (index_keys_Permutation _ _ Hp)). f_equal.
  destruct (dict_get name (foldl add_row [] rows1)) as [e1 |] eqn:E1;
    destruct (dict_get name (foldl add_row [] rows2)) as [e2 |] eqn:E2; simpl.
  - f_equal. rewrite (foldl_add_row_db_id rows1 [] name) by done.
    by rewrite (foldl_add_row_db_id rows2 [] name).
  - apply dict_get_None in E2. rewrite <- (index_keys_Permutation _ _ Hp) in E2.
    apply dict_get_None in E2. congruence.
  - apply dict_get_None in E1. rewrite (index_keys_Permutation _ _ Hp) in E1.
    apply dict_get_None in E1. congruence.
  - done.
Qed.

(** *** Reading an id back *)

Lemma digits_value_uint (d : Decimal.uint) (acc : nat) :
  foldl (λ acc c, 10 * acc + (N.to_nat c - 48)) acc (uint_digits d)
  = Nat.of_uint_acc d acc.
Proof.
  revert acc. induction d; intros acc; simpl; [done | ..];
    rewrite IHd, Nat.tail_mul_spec; f_equal; lia.
Qed.

Lemma digits_value_zeros (k : nat) (s : pystr) :
  digits_value (replicate k 48%N ++ s) = digits_value s.
Proof.
  unfold digits_value. rewrite foldl_app. f_equal.
  induction k as [|k IH]; simpl; [done |]. by rewrite <- IH at 2.
Qed.

(** [int(f'{n:04d}') == n]. *)
Lemma digits_value_format (n : nat) : digits_value (format_04d n) = n.
Proof.
  unfold format_04d. rewrite digits_value_zeros.
  unfold digits_value, str_of_nat. rewrite digits_value_uint.
  apply Unsigned.of_to.
Qed.

Lemma format_04d_inj (n m : nat) : format_04d n = format_04d m → n = m.
Proof. intros H. by rewrite <- (digits_value_format n), H, digits_value_format. Qed.

Lemma format_04d_length (n : nat) :
  (Z.of_nat n < 10000)%Z → length (format_04d n) = 4.
Proof.
  intros Hn.
  assert (forallb (λ n, length (format_04d n) =? 4) (seq 0 (Z.to_nat 10000)) = true)
    as Hall by (by vm_compute).
  rewrite forallb_true in Hall. apply Nat.eqb_eq, Hall, elem_of_seq. lia.
Qed.

(** When [build_db_client_index] returns, the ids number the distinct
    non-empty normalized names in alphabetical order, from DB-0001 on:
    the name of rank [i] has the id made of DB- and [i + 1] in decimal,
    padded with zeros to four digits (seven characters up to DB-9999);
    no two names share an id, and no other name has an entry. *)
Theorem db_ids_sequential (rows : list db_row) (index : list (pystr * db_client)) :
  build_db_client_index rows = Ok index →
  ∃ sorted_names : list pystr,
    Sorted str_le sorted_names ∧ NoDup sorted_names
    ∧ (∀ name, name ∈ sorted_names ↔ name ≠ [] ∧ name ∈ map row_name_norm rows)
    ∧ (∀ i name, sorted_names !! i = Some name →
         ∃ id, db_id <$> dict_get name index = Some id
               ∧ id = lit "DB-" ++ format_04d (i + 1)
               ∧ digits_value (drop 3 id) = i + 1
               ∧ ((Z.of_nat i + 1 < 10000)%Z → length id = 7))
    ∧ (∀ i j name1 name2,
         sorted_names !! i = Some name1 → sorted_names !! j = Some name2 →
         db_id <$> dict_get name1 index = db_id <$> dict_get name2 index →
         name1 = name2)
    ∧ (∀ name, name ∉ sorted_names → dict_get name index = None).
Proof.
  intros ->%for_each_assign_id_Ok. set (index := foldl add_row [] rows).
  exists (sorted str_leb (map fst index)).
  assert (NoDup (map fst index)) as Hnd
    by apply foldl_add_row_NoDup, NoDup_nil_2.
  assert (∀ i name, sorted str_leb (map fst index) !! i = Some name →
            db_id <$> dict_get name (number_all index
                                       (enumerate1 (sorted str_leb (map fst index))))
            = Some (lit "DB-" ++ format_04d (i + 1))) as Hid.
  { intros i name Hi. unfold enumerate1. rewrite number_all_id.
    assert (name ∈ map fst index) as Hin.
    { rewrite <- (sorted_Permutation str_leb). by eapply list_elem_of_lookup_2. }
    destruct (dict_get name index) as [e |] eqn:E.
    - simpl. rewrite (final_id_rank name _ 1 i) by (by rewrite ?sorted_Permutation).
      by rewrite (Nat.add_comm 1 i).
    - by apply dict_get_None in E. }
  split; [apply (sorted_Sorted str_leb), str_leb_total |].
  split; [by rewrite sorted_Permutation |].
  split; [| split; [| split]].
  - intros name. rewrite sorted_Permutation. unfold index.
    rewrite foldl_add_row_elem_of, elem_of_nil. tauto.
  - intros i name Hi. eexists. split; [by apply Hid |]. split; [done |]. split.
    + change (drop 3 (lit "DB-" ++ format_04d (i + 1))) with (format_04d (i + 1)).
      apply digits_value_format.
    + intros Hlt. rewrite length_app, format_04d_length by lia. done.
  - intros i j name1 name2 Hi Hj. rewrite (Hid i name1 Hi), (Hid j name2 Hj).
    intros [= Heq%format_04d_inj].
    assert (i = j) as -> by lia. congruence.
  - intros name Hn. rewrite sorted_Permutation in Hn.
    apply dict_get_None. rewrite number_all_keys. done.
Qed.

(** C6: [build_db_client_index] does not give every normalized name an
    id. For a client with a dated and an undated visit, as [load_db]
    delivers them, sorting the visits compares a tz-aware date with the
    tz-naive [pd.Timestamp.min] and raises [TypeError], in whatever order
    the rows come: no index is returned and no name receives an id. The
    same normalized names with both dates in place receive DB-0001, so
    the id is not a function of the set of normalized names alone. *)
Theorem build_db_client_index_raises_on_undated_visit :
  map row_name_norm scenarios.undated_rows = map row_name_norm scenarios.dated_rows
  ∧ db_id_of (lit "ivanova anna") scenarios.dated_rows = Ok (Some (lit "DB-0001"))
  ∧ build_db_client_index scenarios.undated_rows = Raise TypeError
  ∧ build_db_client_index (reverse scenarios.undated_rows) = Raise TypeError
  ∧ db_id_of (lit "ivanova anna") scenarios.undated_rows = Raise TypeError.
Proof. repeat split; by vm_compute. Qed.
End registry.

Section registry_examples.
Import Py verify_with_db scenarios.

(** The rows of [registry_rows] can be ordered: the index is built, the
    two clients are numbered in alphabetical order, and moving the first
    row to the end changes nothing. *)
Example registry_rows_ids :
  orderable registry_rows = true
  ∧ db_id_of (lit "ivanova anna") registry_rows = Ok (Some (lit "DB-0001"))
  ∧ db_id_of (lit "petrova maria") registry_rows = Ok (Some (lit "DB-0002"))
  ∧ db_id_of (lit "sidorova elena") registry_rows = Ok None.
Proof. repeat split; by vm_compute. Qed.

Example registry_rows_reordered (name : pystr) :
  db_id_of name registry_rows
  = db_id_of name (drop 1 registry_rows ++ take 1 registry_rows).
Proof.
  apply db_id_outcome_row_order_independent.
  apply (Permutation_cons_append (drop 1 registry_rows)).
Qed.
End registry_examples.

(** ** Grouping pages by client *)

Section grouping_props.
Import Py client_card_ocr.
Context (repr : pyval → pystr) (rf_fuzz : option RapidFuzz) (threshold : float).

(** *** Cluster keys *)

Lemma uint_digits_inj (d d' : Decimal.uint) : uint_digits d = uint_digits d' → d = d'.
Proof.
  revert d'. induction d; intros []; simpl; try done; intros [= H]; f_equal; auto.
Qed.

Lemma str_of_nat_inj (n m : nat) : str_of_nat n = str_of_nat m → n = m.
Proof.
  unfold str_of_nat. intros H%uint_digits_inj.
  by rewrite <- (Unsigned.of_to n), H, Unsigned.of_to.
Qed.

Lemma client_key_of_inj (n m : nat) : client_key_of n = client_key_of m → n = m.
Proof. unfold client_key_of. intros H%app_inv_head. by apply str_of_nat_inj. Qed.

Lemma client_key_not_unmatched (n : nat) :
  str_eqb (client_key_of n) (lit "_unmatched") = false.
Proof. apply str_eqb_neq. unfold client_key_of. simpl. discriminate. Qed.

Lemma fresh_key (clients : list (pystr * client)) :
  keys_wf clients → client_key_of (length clients + 1) ∉ map fst clients.
Proof.
  unfold keys_wf. intros -> (i & Hi%client_key_of_inj & Hin)%list_elem_of_fmap.
  apply elem_of_seq in Hin. lia.
Qed.

Lemma dict_update_length {V} (k : pystr) (f : V → V) (d : list (pystr * V)) :
  length (dict_update k f d) = length d.
Proof. by rewrite <- (length_map fst), dict_update_keys, length_map. Qed.

Lemma dict_set_fresh {V} (k : pystr) (v : V) (d : list (pystr * V)) :
  k ∉ map fst d → dict_set k v d = d ++ [(k, v)].
Proof.
  induction d as [|[k' v'] d IH]; simpl; [done |].
  intros [Hk Hd]%not_elem_of_cons.
  apply not_eq_sym, str_eqb_neq in Hk. rewrite Hk. by rewrite IH.
Qed.

Lemma keys_wf_update (k : pystr) (f : client → client) clients :
  keys_wf clients → keys_wf (dict_update k f clients).
Proof. unfold keys_wf. by rewrite dict_update_keys, dict_update_length. Qed.

Lemma keys_wf_new (c : client) clients :
  keys_wf clients → keys_wf (clients ++ [(client_key_of (length clients + 1), c)]).
Proof.
  unfold keys_wf. intros Hwf.
  rewrite map_app, length_app, Hwf. cbn [length map fst].
  rewrite !Nat.add_1_r, seq_S, map_app. done.
Qed.

(** *** The pages of the clusters *)

Lemma all_pages_app (d1 d2 : list (pystr * client)) :
  all_pages (d1 ++ d2) = all_pages d1 ++ all_pages d2.
Proof. unfold all_pages. by rewrite map_app, concat_app. Qed.

Lemma all_pages_update (k : pystr) (f : client → client) (extra : list page) clients :
  (∀ c, c_pages (f c) = c_pages c ++ extra) →
  k ∈ map fst clients →
  all_pages (dict_update k f clients) ≡ₚ all_pages clients ++ extra.
Proof.
  intros Hf. induction clients as [|[k' c] clients IH]; simpl.
  { by intros ?%elem_of_nil. }
  destruct (str_eqb k' k) eqn:E.
  - intros _. unfold all_pages. simpl. rewrite Hf, <- !app_assoc.
    apply Permutation_app_head, Permutation_app_comm.
  - apply str_eqb_neq in E. intros [? | Hin]%elem_of_cons; [done |].
    unfold all_pages in *. simpl. by rewrite IH, app_assoc.
Qed.

(** *** The main loop *)

Lemma truthy_key_Some (match_key : option pystr) (k : pystr) :
  truthy_key match_key = Some k → match_key = Some k.
Proof.
  destruct match_key as [k' |]; simpl; [| done].
  by destruct (str_eqb k' []); intros [= ->].
Qed.

Lemma find_matching_client_key ids clients k :
  find_matching_client rf_fuzz ids clients threshold = Ok (Some k) →
  k ∈ map fst clients.
Proof.
  intros (phone & iin & _ & _ & Hloop)%find_matching_client_Ok_inv.
  by eapply find_loop_key.
Qed.

Lemma group_step_inv clients unmatched (p : page) clients' unmatched' :
  keys_wf clients →
  group_step repr rf_fuzz threshold (clients, unmatched) p = Ok (clients', unmatched') →
  keys_wf clients'
  ∧ all_pages clients' ++ unmatched' ≡ₚ all_pages clients ++ unmatched ++ [p].
Proof.
  intros Hwf. unfold group_step.
  destruct (str_eqb (page_type p) _); [by intros [= <- <-] |].
  destruct (no_ids _); [by intros [= <- <-] |].
  destruct (find_matching_client _ _ _ _) as [match_key | e] eqn:Hfind; [| done].
  rewrite result_bind_Ok.
  destruct (truthy_key match_key) as [k |] eqn:Hk.
  - apply truthy_key_Some in Hk as ->. apply find_matching_client_key in Hfind.
    intros [= <- <-]. split; [by apply keys_wf_update |].
    rewrite (all_pages_update _ _ [p]) by done.
    rewrite <- !app_assoc. apply Permutation_app_head, Permutation_app_comm.
  - intros [= <- <-]. rewrite dict_set_fresh by (by apply fresh_key).
    split; [by apply keys_wf_new |].
    rewrite all_pages_app. unfold all_pages at 2. simpl.
    rewrite <- !app_assoc. apply Permutation_app_head, Permutation_app_comm.
Qed.

Lemma group_loop_inv (results : list page) clients unmatched clients' unmatched' :
  keys_wf clients →
  group_loop repr rf_fuzz threshold (clients, unmatched) results
  = Ok (clients', unmatched') →
  keys_wf clients'
  ∧ all_pages clients' ++ unmatched' ≡ₚ all_pages clients ++ unmatched ++ results.
Proof.
  revert clients unmatched.
  induction results as [|p results IH]; intros clients unmatched Hwf; simpl.
  { intros [= <- <-]. by rewrite app_nil_r. }
  intros ([c1 u1] & Hstep & Hloop)%result_bind_inv.
  apply group_step_inv in Hstep as [Hwf1 Hp1]; [| done].
  apply IH in Hloop as [Hwf2 Hp2]; [| done].
  split; [done |]. rewrite Hp2, app_assoc, Hp1, <- !app_assoc. done.
Qed.

(** *** The unmatched pages *)

Lemma rematch_step_inv clients remaining (p : page) clients' remaining' :
  rematch_step repr rf_fuzz threshold (clients, remaining) p = Ok (clients', remaining') →
  map fst clients' = map fst clients
  ∧ all_pages clients' ++ remaining' ≡ₚ all_pages clients ++ remaining ++ [p].
Proof.
  unfold rematch_step.
  intros (match_key & Hfind & H)%result_bind_inv.
  destruct (truthy_key match_key) as [k |] eqn:Hk.
  - apply truthy_key_Some in Hk as ->. injection H as <- <-.
    assert (k ∈ map fst clients) as Hin.
    { destruct (negb _); [by eapply find_matching_client_key | done]. }
    split; [apply dict_update_keys |].
    rewrite (all_pages_update _ _ [p]) by done.
    rewrite <- !app_assoc. apply Permutation_app_head, Permutation_app_comm.
  - by injection H as <- <-.
Qed.

Lemma rematch_loop_inv (unmatched : list page) clients remaining clients' remaining' :
  rematch_loop repr rf_fuzz threshold (clients, remaining) unmatched
  = Ok (clients', remaining') →
  map fst clients' = map fst clients
  ∧ all_pages clients' ++ remaining' ≡ₚ all_pages clients ++ remaining ++ unmatched.
Proof.
  revert clients remaining.
  induction unmatched as [|p unmatched IH]; intros clients remaining; simpl.
  { intros [= <- <-]. by rewrite app_nil_r. }
  intros ([c1 r1] & Hstep & Hloop)%result_bind_inv.
  apply rematch_step_inv in Hstep as [Hk1 Hp1].
  apply IH in Hloop as [Hk2 Hp2].
  split; [congruence |]. rewrite Hp2, app_assoc, Hp1, <- !app_assoc. done.
Qed.

Lemma existing_keys_wf clients :
  keys_wf clients →
  List.filter (λ k, negb (str_eqb k (lit "_unmatched"))) (map fst clients)
  = map fst clients.
Proof.
  unfold keys_wf. intros ->. induction (seq 1 (length clients)) as [|n l IH]; [done |].
  cbn [map List.filter]. by rewrite client_key_not_unmatched, IH.
Qed.

Lemma place_unmatched_inv clients (unmatched : list page) clients' :
  keys_wf clients →
  place_unmatched repr rf_fuzz threshold clients unmatched = Ok clients' →
  all_pages clients' ≡ₚ all_pages clients ++ unmatched.
Proof.
  intros Hwf. unfold place_unmatched.
  destruct unmatched as [|first unmatched]; [intros [= <-]; by rewrite app_nil_r |].
  rewrite existing_keys_wf by done.
  destruct clients as [|[primary_key c] clients]; simpl map.
  { intros [= <-]. unfold all_pages. simpl. by rewrite app_nil_r. }
  cbv match.
  intros ([c1 remaining] & Hloop & H)%result_bind_inv.
  apply rematch_loop_inv in Hloop as [Hkeys Hp]. simpl in Hp.
  destruct remaining as [|r remaining].
  - injection H as <-. by rewrite app_nil_r in Hp.
  - injection H as <-. rewrite (all_pages_update _ _ (r :: remaining)); [done | done |].
    rewrite Hkeys. by left.
Qed.

End grouping_props.

Section grouping_conservation.
Import Py client_card_ocr.
Context (repr : pyval → pystr) (rf_fuzz : option RapidFuzz).

(** Whenever [group_by_client] returns, the pages of the clusters are the
    pages of the batch: none is lost and none is in two clusters. *)
Lemma group_by_client_conserves (config : Config) (results : list page) clients :
  group_by_client repr rf_fuzz config results = Ok clients →
  all_pages clients ≡ₚ results.
Proof.
  unfold group_by_client.
  intros ([c1 unmatched] & Hloop & Hplace)%result_bind_inv.
  apply group_loop_inv in Hloop as [Hwf Hp]; [| done].
  apply place_unmatched_inv in Hplace; [| done].
  rewrite Hplace, Hp. simpl. apply sorted_Permutation.
Qed.
End grouping_conservation.

(** *** Identifiers that are strings *)

Section grouping_total.
Import Py client_card_ocr.
Context (repr : pyval → pystr) (rf_fuzz : option RapidFuzz) (threshold : float).

Lemma is_str_inv (v : pyval) : is_str v = true → ∃ s, v = PStr s.
Proof. destruct v; try done. by eexists. Qed.

Lemma str_client_inv (c : client) :
  str_client c = true →
  ∃ name phone iin, c_name c = PStr name ∧ c_phone c = PStr phone ∧ c_iin c = PStr iin.
Proof.
  unfold str_client.
  intros [[(? & ?)%is_str_inv (? & ?)%is_str_inv]%andb_true_iff
            (? & ?)%is_str_inv]%andb_true_iff.
  naive_solver.
Qed.

Lemma str_ids_inv (ids : identifiers) :
  str_ids ids = true →
  ∃ fio phone iin, ids_fio ids = PStr fio ∧ ids_phone ids = PStr phone
                   ∧ ids_iin ids = PStr iin.
Proof.
  unfold str_ids.
  intros [[(? & ?)%is_str_inv (? & ?)%is_str_inv]%andb_true_iff
            (? & ?)%is_str_inv]%andb_true_iff.
  naive_solver.
Qed.

Lemma fuzzy_match_str (s1 s2 : pystr) :
  ∃ x, fuzzy_match rf_fuzz (PStr s1) (PStr s2) = Ok x.
Proof.
  unfold fuzzy_match. destruct (_ || _); [by eexists |].
  rewrite !grouper_normalize_name_eq, !result_bind_Ok.
  destruct (str_eqb _ _); [by eexists |]. destruct rf_fuzz; by eexists.
Qed.

Lemma find_loop_total (fio new_phone new_iin : pystr) clients :
  Forall (λ kc, str_client kc.2 = true) clients →
  ∃ r, find_loop rf_fuzz (PStr fio) new_phone new_iin threshold clients = Ok r.
Proof.
  induction 1 as [|[k c] clients Hc _ [r IH]]; simpl; [by eexists |].
  simpl in Hc. apply str_client_inv in Hc as (name & phone & iin & Hn & Hp & Hi).
  unfold check_iin, check_phone, check_fio. rewrite Hn, Hp, Hi.
  destruct (_ && truthy (PStr iin)); cbn [as_str mbind result_bind];
    [destruct (str_eqb new_iin _); [by eexists |] |];
    (destruct (_ && truthy (PStr phone)); cbn [as_str mbind result_bind];
     [destruct (_ && str_eqb _ _); [by eexists |] |];
     (destruct (_ && truthy (PStr name)); cbn [mbind result_bind];
      [destruct (fuzzy_match_str fio name) as [x ->]; cbn [mbind result_bind];
       destruct (fge x threshold) |]; by eexists)).
Qed.

Lemma find_matching_client_total (ids : identifiers) clients :
  str_ids ids = true →
  Forall (λ kc, str_client kc.2 = true) clients →
  ∃ r, find_matching_client rf_fuzz ids clients threshold = Ok r.
Proof.
  intros (fio & phone & iin & Hf & Hp & Hi)%str_ids_inv Hc.
  unfold find_matching_client. rewrite Hf, Hp, Hi. simpl.
  by apply find_loop_total.
Qed.

Lemma Forall_dict_update {V} (P : V → Prop) (k : pystr) (f : V → V) (d : list (pystr * V)) :
  (∀ v, P v → P (f v)) →
  Forall (λ kv, P kv.2) d → Forall (λ kv, P kv.2) (dict_update k f d).
Proof.
  intros Hf. induction 1 as [|[k' v] d Hv Hd IH]; simpl; [done |].
  destruct (str_eqb k' k); constructor; simpl in *; auto.
Qed.

Lemma Forall_dict_set {V} (P : V → Prop) (k : pystr) (v : V) (d : list (pystr * V)) :
  P v → Forall (λ kv, P kv.2) d → Forall (λ kv, P kv.2) (dict_set k v d).
Proof.
  intros Hv. induction 1 as [|[k' v'] d Hv' Hd IH]; simpl.
  { by repeat constructor. }
  destruct (str_eqb k' k); constructor; simpl in *; auto.
Qed.

Lemma str_client_backfill (ids : identifiers) (p : page) (c : client) :
  str_ids ids = true → str_client c = true →
  str_client (backfill ids (append_page p c)) = true.
Proof.
  intros (fio & phone & iin & Hf & Hp & Hi)%str_ids_inv
         (name & cphone & ciin & Hn & Hcp & Hci)%str_client_inv.
  unfold str_client, backfill, append_page. simpl. rewrite Hn, Hp, Hi, Hcp, Hci.
  by repeat match goal with |- context [if ?b then _ else _] => destruct b end.
Qed.

Lemma group_step_total clients unmatched (p : page) :
  ids_ok (extract_identifiers repr p) = true →
  Forall (λ kc, str_client kc.2 = true) clients →
  ∃ clients' unmatched',
    group_step repr rf_fuzz threshold (clients, unmatched) p = Ok (clients', unmatched')
    ∧ Forall (λ kc, str_client kc.2 = true) clients'.
Proof.
  intros Hok Hc. unfold group_step. cbv zeta.
  destruct (str_eqb (page_type p) _); [by eexists _, _ |].
  revert Hok. generalize (extract_identifiers repr p). intros ids Hok.
  unfold ids_ok in Hok.
  destruct (no_ids _); [by eexists _, _ |]. simpl in Hok.
  destruct (find_matching_client_total _ _ Hok Hc) as [match_key ->].
  rewrite result_bind_Ok.
  destruct (truthy_key match_key) as [k |]; eexists _, _; (split; [done |]).
  - apply (Forall_dict_update (λ c, str_client c = true)); [| done].
    intros c. by apply str_client_backfill.
  - apply (Forall_dict_set (λ c, str_client c = true)); [| done].
    apply str_ids_inv in Hok as (fio & phone & iin & Hf & Hp & Hi).
    unfold str_client. simpl. rewrite Hf, Hp, Hi. by destruct (truthy _).
Qed.

Lemma group_loop_total (results : list page) clients unmatched :
  Forall (λ p, ids_ok (extract_identifiers repr p) = true) results →
  Forall (λ kc, str_client kc.2 = true) clients →
  ∃ clients' unmatched',
    group_loop repr rf_fuzz threshold (clients, unmatched) results
    = Ok (clients', unmatched')
    ∧ Forall (λ kc, str_client kc.2 = true) clients'.
Proof.
  intros Hok. revert clients unmatched.
  induction Hok as [|p results Hp _ IH]; intros clients unmatched Hc; cbn [group_loop].
  { by eexists _, _. }
  destruct (group_step_total clients unmatched p Hp Hc) as (c1 & u1 & -> & Hc1).
  rewrite result_bind_Ok. by apply IH.
Qed.

Lemma rematch_step_total clients remaining (p : page) :
  ids_ok (extract_identifiers repr p) = true →
  Forall (λ kc, str_client kc.2 = true) clients →
  ∃ clients' remaining',
    rematch_step repr rf_fuzz threshold (clients, remaining) p
    = Ok (clients', remaining')
    ∧ Forall (λ kc, str_client kc.2 = true) clients'.
Proof.
  intros Hok Hc. unfold rematch_step, ids_ok in *.
  destruct (no_ids _); simpl in *.
  { by eexists _, _. }
  destruct (find_matching_client_total _ _ Hok Hc) as [match_key ->].
  rewrite result_bind_Ok.
  destruct (truthy_key match_key) as [k |]; eexists _, _; (split; [done |]); [| done].
  by apply (Forall_dict_update (λ c, str_client c = true)).
Qed.

Lemma rematch_loop_total (unmatched : list page) clients remaining :
  Forall (λ p, ids_ok (extract_identifiers repr p) = true) unmatched →
  Forall (λ kc, str_client kc.2 = true) clients →
  ∃ clients' remaining',
    rematch_loop repr rf_fuzz threshold (clients, remaining) unmatched
    = Ok (clients', remaining').
Proof.
  intros Hok. revert clients remaining.
  induction Hok as [|p unmatched Hp _ IH]; intros clients remaining Hc; cbn [rematch_loop].
  { by eexists _, _. }
  destruct (rematch_step_total clients remaining p Hp Hc) as (c1 & r1 & -> & Hc1).
  rewrite result_bind_Ok. by apply IH.
Qed.

Lemma place_unmatched_total clients (unmatched : list page) :
  Forall (λ p, ids_ok (extract_identifiers repr p) = true) unmatched →
  Forall (λ kc, str_client kc.2 = true) clients →
  ∃ clients', place_unmatched repr rf_fuzz threshold clients unmatched = Ok clients'.
Proof.
  intros Hok Hc. unfold place_unmatched.
  destruct unmatched as [|first unmatched]; [by eexists |].
  destruct (List.filter _ _); [by eexists |].
  destruct (rematch_loop_total (first :: unmatched) clients [] Hok Hc)
    as (c1 & r1 & ->).
  rewrite result_bind_Ok. destruct r1; by eexists.
Qed.
End grouping_total.

Section grouping_theorems.
Import Py client_card_ocr scenarios.
Context (repr : pyval → pystr) (rf_fuzz : option RapidFuzz).

(** When the identifiers of every page are strings, or all empty,
    [group_by_client] returns and puts every page of the batch in exactly
    one cluster. *)
Theorem group_by_client_places_every_page (config : Config) (results : list page) :
  Forall (λ p, ids_ok (extract_identifiers repr p) = true) results →
  ∃ clients,
    group_by_client repr rf_fuzz config results = Ok clients
    ∧ all_pages clients ≡ₚ results.
Proof.
  intros Hok.
  assert (∃ clients, group_by_client repr rf_fuzz config results = Ok clients)
    as [clients H].
  { unfold group_by_client.
    set (sorted_results := sorted _ results).
    assert (Forall (λ p, ids_ok (extract_identifiers repr p) = true) sorted_results)
      as Hsorted by (by unfold sorted_results; rewrite sorted_Permutation).
    destruct (group_loop_total repr rf_fuzz (FUZZY_NAME_THRESHOLD config)
                sorted_results [] [] Hsorted (Forall_nil_2 _))
      as (c1 & u1 & Hloop & Hc1).
    rewrite Hloop, result_bind_Ok.
    apply place_unmatched_total; [| done].
    apply group_loop_inv in Hloop as [_ Hp]; [| done].
    simpl in Hp. rewrite <- Hp in Hsorted. by apply Forall_app in Hsorted as [_ ?]. }
  exists clients. split; [done |]. by eapply group_by_client_conserves.
Qed.

(** C1: [group_by_client] raises on a batch with a page whose payload has
    a name and [null] for the national id: [find_matching_client] calls
    [replace] on [None]. No cluster is returned for such a batch. *)
Theorem group_by_client_raises_on_null_id (config : Config) :
  ids_fio (extract_identifiers repr null_iin_page) = PStr (lit "Ivanov Petr")
  ∧ ids_iin (extract_identifiers repr null_iin_page) = PNone
  ∧ group_by_client repr rf_fuzz config [null_iin_page] = Raise AttributeError.
Proof. done. Qed.
End grouping_theorems.

Section grouping_examples.
Import Py client_card_ocr scenarios.

Lemma group_by_client_places_every_page_witness :
  ∃ clients,
    group_by_client no_repr None default_config
      [text_page "a.jpg" "no identifiers here"; absent_iin_page] = Ok clients
    ∧ all_pages clients ≡ₚ [text_page "a.jpg" "no identifiers here"; absent_iin_page].
Proof.
  apply group_by_client_places_every_page.
  repeat constructor.
Defined.
End grouping_examples.

(** ** The matcher of [difflib] always has fuel enough *)

Section difflib_fuel.
Import Py difflib.
Context (a b : pystr).

Lemma row_inv (alo blo bhi : nat) (ai : N) (i : nat) (bs : pystr) :
  alo ≤ i →
  ∀ j pjm1 prev best,
    pjm1 ≤ i - alo → Forall (λ x, x ≤ i - alo) prev → block_in alo (S i) best →
    Forall (λ x, x ≤ S i - alo) (row b alo blo bhi ai i j bs pjm1 prev best).1
    ∧ block_in alo (S i) (row b alo blo bhi ai i j bs pjm1 prev best).2.
Proof.
  intros Hi. induction bs as [|bj bs IH]; intros j pjm1 prev best Hp Hprev Hbest.
  { simpl. split; [constructor | done]. }
  cbn [row].
  match goal with
  | |- context [if ?c then S pjm1 else 0] => set (k := if c then S pjm1 else 0)
  end.
  assert (k ≤ S i - alo) as Hk by (subst k; destruct (_ && _); lia).
  match goal with
  | |- context [if best.2 <? k then ?x else best] =>
      set (best' := if best.2 <? k then x else best)
  end.
  assert (block_in alo (S i) best') as Hbest'.
  { subst best'. destruct (best.2 <? k); [| done]. unfold block_in. simpl. lia. }
  assert (hd 0 prev ≤ i - alo) as Hhd.
  { destruct Hprev; simpl; [lia | done]. }
  assert (Forall (λ x, x ≤ i - alo) (tl prev)) as Htl.
  { destruct Hprev; simpl; [constructor | done]. }
  destruct (IH (S j) (hd 0 prev) (tl prev) best' Hhd Htl Hbest') as [H1 H2].
  destruct (row _ _ _ _ _ _ _ _ _ _ _) as [r best'']. simpl in *.
  split; [constructor; [lia | done] | done].
Qed.

Lemma rows_inv (alo blo bhi : nat) (n : nat) :
  ∀ i suffix prev best,
    alo ≤ i → Forall (λ x, x ≤ i - alo) prev → block_in alo i best →
    block_in alo (i + n) (rows b alo blo bhi i suffix n prev best).
Proof.
  induction n as [|n IH]; intros i suffix prev best Hi Hprev Hbest.
  { rewrite Nat.add_0_r. by destruct suffix. }
  destruct suffix as [|ai suffix]; cbn [rows].
  { destruct Hbest. split; [done | lia]. }
  assert (block_in alo (S i) best) as Hbest' by (destruct Hbest; split; [done | lia]).
  assert (0 ≤ i - alo) as H0 by lia.
  destruct (row_inv alo blo bhi ai i b Hi 0 0 prev best H0 Hprev Hbest') as [H1 H2].
  destruct (row _ _ _ _ _ _ _ _ _ _ _) as [r best'']. simpl in *.
  replace (i + S n) with (S i + n) by lia.
  apply IH; [lia | | done].
  eapply Forall_impl; [exact H1 |]. simpl. intros. lia.
Qed.

Lemma extend_left_inv (fuel alo blo n : nat) (best : nat * nat * nat) :
  block_in alo n best → block_in alo n (extend_left a b fuel alo blo best).
Proof.
  revert best. induction fuel as [|fuel IH]; intros [[i j] k] Hb; simpl; [done |].
  destruct (Nat.ltb_spec alo i); simpl; [| done].
  destruct (_ && _); [| done].
  apply IH. destruct Hb as [H1 H2]. unfold block_in in *. simpl in *. lia.
Qed.

Lemma extend_right_inv (fuel alo ahi bhi : nat) (best : nat * nat * nat) :
  block_in alo ahi best → block_in alo ahi (extend_right a b fuel ahi bhi best).
Proof.
  revert best. induction fuel as [|fuel IH]; intros [[i j] k] Hb; simpl; [done |].
  destruct (Nat.ltb_spec (i + k) ahi); simpl; [| done].
  destruct (_ && _); [| done].
  apply IH. destruct Hb as [H1 H2]. unfold block_in in *. simpl in *. lia.
Qed.

(** The two extension loops stop on their own before their fuel, the
    length of [a], runs out: more fuel changes nothing. *)
Lemma extend_left_fuel (fuel extra alo blo : nat) (best : nat * nat * nat) :
  best.1.1 - alo ≤ fuel →
  extend_left a b (fuel + extra) alo blo best = extend_left a b fuel alo blo best.
Proof.
  revert best. induction fuel as [|fuel IH]; intros [[i j] k] Hf; simpl in *.
  - destruct extra; simpl; [done |].
    destruct (Nat.ltb_spec alo i); [lia | done].
  - destruct (Nat.ltb_spec alo i); simpl; [| done].
    destruct (_ && _); [| done]. apply IH. simpl. lia.
Qed.

Lemma extend_right_fuel (fuel extra ahi bhi : nat) (best : nat * nat * nat) :
  ahi - (best.1.1 + best.2) ≤ fuel →
  extend_right a b (fuel + extra) ahi bhi best = extend_right a b fuel ahi bhi best.
Proof.
  revert best. induction fuel as [|fuel IH]; intros [[i j] k] Hf; simpl in *.
  - destruct extra; simpl; [done |].
    destruct (Nat.ltb_spec (i + k) ahi); [lia | done].
  - destruct (Nat.ltb_spec (i + k) ahi); simpl; [| done].
    destruct (_ && _); [| done]. apply IH. simpl. lia.
Qed.

(** The longest block lies in the window asked for. *)
Lemma find_longest_match_in (alo ahi blo bhi : nat) :
  alo ≤ ahi → block_in alo ahi (find_longest_match a b alo ahi blo bhi).
Proof.
  intros H. unfold find_longest_match.
  apply extend_right_inv, extend_left_inv.
  pose proof (rows_inv alo blo bhi (ahi - alo) alo (drop alo a)
                (replicate (length b) 0) (alo, blo, 0)) as Hrows.
  replace (alo + (ahi - alo)) with ahi in Hrows by lia.
  apply Hrows; [done | | ].
  - rewrite Nat.sub_diag. apply Forall_forall. intros x Hx.
    apply elem_of_replicate in Hx as [-> _]. done.
  - split; simpl; lia.
Qed.

(** Fuel beyond the width of the window changes nothing: the recursion on
    the two sides of a block is on strictly narrower windows. *)
Lemma matches_fuel (fuel fuel' : nat) :
  ∀ alo ahi blo bhi,
    alo ≤ ahi → ahi - alo < fuel → ahi - alo < fuel' →
    matches a b fuel alo ahi blo bhi = matches a b fuel' alo ahi blo bhi.
Proof.
  revert fuel'. induction fuel as [|fuel IH]; intros fuel' alo ahi blo bhi H Hf Hf';
    [lia |].
  destruct fuel' as [|fuel']; [lia |]. cbn [matches].
  pose proof (find_longest_match_in alo ahi blo bhi H) as Hb.
  destruct (find_longest_match a b alo ahi blo bhi) as [[i j] k].
  destruct Hb as [H1 H2]. simpl in H1, H2.
  destruct (Nat.eqb_spec k 0); [done |].
  f_equal; [f_equal |].
  - destruct (_ && _); [| done]. apply IH; lia.
  - destruct (_ && _); [| done]. apply IH; lia.
Qed.

(** [ratio] is computed with fuel to spare. *)
Lemma ratio_fuel (extra : nat) :
  matches a b (S (length a) + extra) 0 (length a) 0 (length b)
  = matches a b (S (length a)) 0 (length a) 0 (length b).
Proof. apply matches_fuel; lia. Qed.
End difflib_fuel.
